(** * Local order book synchronisation (FLOWDESK_Task)

    A shallow embedding of [utils/localOrderBook.ts] (class [LocalOrderBook])
    and of the depth-stream session of the WebSocket test (task 2): the
    message handler, [fetchAndSyncSnapshot] and the session's [applyEvent]
    wrapper.

    Conventions.
    - Update ids ([U], [u], [lastUpdateId]) are JavaScript numbers holding
      integers; they are modelled as [Z], and [lastUpdateId + 1] as the
      integer sum.  That is the sum of the source for safe integers
      (magnitude below [2^53], see [JSInt.plusOne]); beyond them the
      source adds in binary64 and rounds.  A field that is absent from
      the parsed JSON message is [JUndefined].
    - A side of the book is a JavaScript [Map<string, string>]; it is
      modelled as a [gmap string string].  The insertion order of the
      [Map] is observed only by [getTopBid]/[getTopAsk], whose model takes
      the listing order as a parameter.
    - Strings are taken as ASCII.  The levels of an array side are
      [[price, quantity]] pairs of strings, as the type declares them.
    - [console.log]/[console.warn] calls are dropped.  A fetch that fails
      (a rejected promise) ends the test and is not modelled. *)

From Stdlib Require Import ZArith NArith Ascii String List Lia.
From stdpp Require Import base option list strings gmap fin_maps pretty sorting.

Local Open Scope Z_scope.

(** ** [parseFloat], as far as the test [parseFloat(qty) === 0] needs it *)

Module JS.

(** A field of a parsed JSON message that the TypeScript type declares as
    [number]: either a number, or missing ([undefined]). *)
Inductive field : Type :=
| JNum (z : Z)
| JUndefined.

(** [x > n] for a number [n]: [undefined] converts to [NaN], and every
    comparison with [NaN] is false. *)
Definition gt (x : field) (n : Z) : bool :=
  match x with JNum z => n <? z | JUndefined => false end.

(** [x <= n] for a number [n]. *)
Definition le (x : field) (n : Z) : bool :=
  match x with JNum z => z <=? n | JUndefined => false end.

(** Truthiness of [x]: [0] and [undefined] are falsy. *)
Definition truthy (x : field) : bool :=
  match x with JNum z => negb (z =? 0) | JUndefined => false end.

(** The value [parseFloat] reads from a string, before it is rounded to
    a double: not a number, an infinity, or the decimal [m * 10^e] with
    its sign. *)
Inductive literal : Type :=
| LNaN
| LInfinity (neg : bool)
| LDecimal (neg : bool) (m : N) (e : Z).

(** The ASCII members of StrWhiteSpaceChar: TAB, LF, VT, FF, CR, SP. *)
Definition isWhiteSpace (c : ascii) : bool :=
  let n := N_of_ascii c in
  ((9 <=? n) && (n <=? 13))%N || (n =? 32)%N.

Definition isDecimalDigit (c : ascii) : bool :=
  let n := N_of_ascii c in
  ((48 <=? n) && (n <=? 57))%N.

Definition digitValue (c : ascii) : N := (N_of_ascii c - 48)%N.

Fixpoint trimStart (s : string) : string :=
  match s with
  | String c r => if isWhiteSpace c then trimStart r else s
  | EmptyString => s
  end.

(** The longest run of decimal digits at the head of [s], and the rest. *)
Fixpoint takeDigits (s : string) : list ascii * string :=
  match s with
  | String c r =>
      if isDecimalDigit c
      then let '(ds, rest) := takeDigits r in (c :: ds, rest)
      else ([], s)
  | EmptyString => ([], s)
  end.

(** The value of DecimalDigits, most significant digit first. *)
Definition digitsValue (ds : list ascii) : N :=
  fold_left (fun acc c => (10 * acc + digitValue c)%N) ds 0%N.

(** An optional sign: [true] for [-]. *)
Definition takeSign (s : string) : bool * string :=
  match s with
  | String "+" r => (false, r)
  | String "-" r => (true, r)
  | _ => (false, s)
  end.

(** ExponentPart: [e] or [E], an optional sign, and at least one digit.
    Without a digit the exponent indicator is not part of the number. *)
Definition takeExponent (s : string) : Z :=
  match s with
  | String c r =>
      if (Ascii.eqb c "e" || Ascii.eqb c "E")%bool
      then let '(neg, r1) := takeSign r in
           match takeDigits r1 with
           | ([], _) => 0
           | (ds, _) =>
               let v := Z.of_N (digitsValue ds) in
               if neg then - v else v
           end
      else 0
  | EmptyString => 0
  end.

Definition startsWithInfinity (s : string) : bool :=
  String.prefix "Infinity" s.

(** [parseFloat(s)] before rounding: leading white space is skipped, then
    the longest prefix that is a StrDecimalLiteral is read.  The digits
    before and after the point form the mantissa; the count of digits
    after the point is subtracted from the exponent. *)
Definition parseLiteral (s : string) : literal :=
  let '(neg, s1) := takeSign (trimStart s) in
  if startsWithInfinity s1 then LInfinity neg
  else
    let '(ip, s2) := takeDigits s1 in
    let '(fp, s3) :=
      match s2 with
      | String "." r => takeDigits r
      | _ => ([], s2)
      end in
    match ip, fp with
    | [], [] => LNaN
    | _, _ =>
        LDecimal neg (digitsValue (ip ++ fp))
                 (takeExponent s3 - Z.of_nat (length fp))
    end.

(** Does the decimal [m * 10^e] round to (plus or minus) zero as a
    double?  With round-to-nearest, ties to even, exactly the values of
    magnitude at most [2^-1075] do: [2^-1074] is the least positive
    double.  (The standard lets an engine cut a numeral after its 20th
    significant digit before rounding; that changes neither the zero
    numerals nor any numeral whose leading digit alone exceeds
    [2^-1075].) *)
Definition roundsToZero (m : N) (e : Z) : bool :=
  if (m =? 0)%N then true
  else if 0 <=? e then false
  else Z.of_N m * 2 ^ 1075 <=? 10 ^ (- e).

(** [parseFloat(s) === 0]: [NaN] and the infinities are not zero, and
    [-0 === 0] holds. *)
Definition parseFloatIsZero (s : string) : bool :=
  match parseLiteral s with
  | LNaN | LInfinity _ => false
  | LDecimal _ m e => roundsToZero m e
  end.

End JS.

(** ** Integers as JavaScript numbers *)

Module JSInt.

(** [Number.isSafeInteger(z)] for an integer [z]. *)
Definition isSafeInteger (z : Z) : bool :=
  (- (2 ^ 53 - 1) <=? z) && (z <=? 2 ^ 53 - 1).

(** The double nearest to the integer [n], ties to the even significand:
    an integer of more than 53 bits keeps its 53 leading bits, rounded. *)
Definition toNumber (n : Z) : Z :=
  let a := Z.abs n in
  let k := Z.log2 a - 52 in
  if k <=? 0 then n
  else
    let q := a / 2 ^ k in
    let r := a mod 2 ^ k in
    let half := 2 ^ (k - 1) in
    let q' := if (half <? r) || ((r =? half) && Z.odd q) then q + 1 else q in
    Z.sgn n * (q' * 2 ^ k).

(** [z + 1] as the source computes it, on numbers. *)
Definition plusOne (z : Z) : Z := toNumber (z + 1).

End JSInt.

(** ** Messages *)

(** A price level [[price, quantity]], both decimal strings. *)
Definition Level : Type := string * string.

(** [DepthUpdateEvent]: the parsed WebSocket message.  [ev_bids] and
    [ev_asks] are [None] when the field is not an array
    ([Array.isArray] is false). *)
Record DepthUpdateEvent : Type := {
  ev_U : JS.field;
  ev_u : JS.field;
  ev_bids : option (list Level);
  ev_asks : option (list Level)
}.

(** [OrderBookSnapshot]: the REST response. *)
Record OrderBookSnapshot : Type := {
  snap_lastUpdateId : Z;
  snap_bids : list Level;
  snap_asks : list Level
}.

(** ** [utils/localOrderBook.ts] *)

Module LocalOrderBook.

Record t : Type := {
  bids : gmap string string;
  asks : gmap string string;
  lastUpdateId : option Z
}.

(** [constructor()] *)
Definition new : t :=
  {| bids := ∅; asks := ∅; lastUpdateId := None |}.

(** [for (const [price, qty] of levels) side.set(price, qty)] *)
Definition setLevels (side : gmap string string) (levels : list Level)
  : gmap string string :=
  foldl (fun m '(price, qty) => <[price := qty]> m) side levels.

Definition setFromSnapshot (book : t) (snapshot : OrderBookSnapshot) : t :=
  {| bids := setLevels ∅ (snap_bids snapshot);
     asks := setLevels ∅ (snap_asks snapshot);
     lastUpdateId := Some (snap_lastUpdateId snapshot) |}.

(** One turn of the update loop of [applyEvent]. *)
Definition applyLevel (side : gmap string string) (level : Level)
  : gmap string string :=
  let '(price, qty) := level in
  if JS.parseFloatIsZero qty then delete price side
  else <[price := qty]> side.

(** [if (Array.isArray(levels)) for (const [price, qty] of levels) ...] *)
Definition applyLevels (side : gmap string string)
           (levels : option (list Level)) : gmap string string :=
  match levels with
  | Some ls => foldl applyLevel side ls
  | None => side
  end.

(** The message pushed on a sequence gap. *)
Definition gapMessage (U : JS.field) (last : Z) : string :=
  "Event U="
    +:+ match U with JS.JNum z => pretty z | JS.JUndefined => "undefined" end
    +:+ " > lastUpdateId+1=" +:+ pretty (last + 1)
    +:+ ", out of sequence. Restarting sync.".

(** [if (errors) errors.push(msg)] *)
Definition pushError (errors : option (list string)) (msg : string)
  : option (list string) :=
  match errors with
  | Some es => Some (es ++ [msg])
  | None => None
  end.

(** The tail of [applyEvent], after the sequence checks: both sides are
    updated and the cursor is moved when [u] is a number. *)
Definition applyUpdates (book : t) (event : DepthUpdateEvent) : t :=
  {| bids := applyLevels (bids book) (ev_bids event);
     asks := applyLevels (asks book) (ev_asks event);
     lastUpdateId :=
       match ev_u event with
       | JS.JNum u => Some u
       | JS.JUndefined => lastUpdateId book
       end |}.

(** [applyEvent(event, errors?)]: the book and the optional error
    collector after the call. *)
Definition applyEvent (book : t) (event : DepthUpdateEvent)
           (errors : option (list string)) : t * option (list string) :=
  match ev_u event, lastUpdateId book with
  | JS.JNum u, Some last =>
      if u <? last then (book, errors)
      else if JS.gt (ev_U event) (last + 1)
           then (book, pushError errors (gapMessage (ev_U event) last))
           else (applyUpdates book event, errors)
  | _, _ => (applyUpdates book event, errors)
  end.

End LocalOrderBook.

(** ** The depth-stream session (task 2 of the test suite) *)

Module Session.

(** The variables the test closes over. *)
Record t : Type := {
  errors : list string;
  messageCount : nat;
  eventBuffer : list DepthUpdateEvent;
  snapshotReceived : bool;
  localOrderBook : LocalOrderBook.t
}.

Definition init : t :=
  {| errors := [];
     messageCount := 0%nat;
     eventBuffer := [];
     snapshotReceived := false;
     localOrderBook := LocalOrderBook.new |}.

(** [applyEvent(json)]: the session's wrapper, which passes the shared
    [errors] array to the book and logs the top of the book. *)
Definition applyEvent (st : t) (json : DepthUpdateEvent) : t :=
  let '(book, errs) :=
    LocalOrderBook.applyEvent (localOrderBook st) json (Some (errors st)) in
  {| errors := default (errors st) errs;
     messageCount := messageCount st;
     eventBuffer := eventBuffer st;
     snapshotReceived := snapshotReceived st;
     localOrderBook := book |}.

(** The message handler given to [wsClient.connect]. *)
Definition onMessage (st : t) (json : DepthUpdateEvent) : t :=
  let st1 :=
    {| errors := errors st;
       messageCount := S (messageCount st);
       eventBuffer := eventBuffer st;
       snapshotReceived := snapshotReceived st;
       localOrderBook := localOrderBook st |} in
  if negb (snapshotReceived st1)
  then {| errors := errors st1;
          messageCount := messageCount st1;
          eventBuffer := eventBuffer st1 ++ [json];
          snapshotReceived := snapshotReceived st1;
          localOrderBook := localOrderBook st1 |}
  else applyEvent st1 json.

(** The condition under which a fetched snapshot is fetched again:
    [eventBuffer.length > 0 && eventBuffer[0].U
      && snapshot.lastUpdateId < eventBuffer[0].U]. *)
Definition mustRefetch (buffer : list DepthUpdateEvent)
           (snapshot : OrderBookSnapshot) : bool :=
  match buffer with
  | first :: _ =>
      JS.truthy (ev_U first)
      && JS.gt (ev_U first) (snap_lastUpdateId snapshot)
  | [] => false
  end.

(** The outside world during [fetchAndSyncSnapshot]: the [n]-th call of
    [fetchRestSnapshot] resolves to a snapshot, and while the session
    awaits it the message handler runs on the events that arrive. *)
Definition World : Type := nat -> list DepthUpdateEvent * OrderBookSnapshot.

(** The [while (true)] loop of [fetchAndSyncSnapshot].  [fuel] bounds
    the turns the model unfolds, the source has no bound; [n] counts the
    fetches made so far.  [None]: the loop is still running when the
    fuel is spent. *)
Fixpoint fetchLoop (fuel : nat) (world : World) (n : nat) (st : t)
  : option (OrderBookSnapshot * t * nat) :=
  match fuel with
  | O => None
  | S fuel' =>
      let '(arrived, snapshot) := world n in
      let st1 := foldl onMessage st arrived in
      if mustRefetch (eventBuffer st1) snapshot
      then fetchLoop fuel' world (S n) st1
      else Some (snapshot, st1, S n)
  end.

(** [while (i < eventBuffer.length && lastUpdateId !== null
           && eventBuffer[i].u <= lastUpdateId) i++]:
    the events left from index [i] on. *)
Fixpoint discardReflected (last : option Z)
         (buffer : list DepthUpdateEvent) : list DepthUpdateEvent :=
  match buffer, last with
  | e :: rest, Some l =>
      if JS.le (ev_u e) l then discardReflected last rest else buffer
  | _, _ => buffer
  end.

(** The part of [fetchAndSyncSnapshot] after the loop. *)
Definition syncFromSnapshot (st : t) (snapshot : OrderBookSnapshot) : t :=
  let book := LocalOrderBook.setFromSnapshot (localOrderBook st) snapshot in
  let st1 :=
    {| errors := errors st;
       messageCount := messageCount st;
       eventBuffer := eventBuffer st;
       snapshotReceived := true;
       localOrderBook := book |} in
  let remaining :=
    discardReflected (LocalOrderBook.lastUpdateId book) (eventBuffer st1) in
  let st2 := foldl applyEvent st1 remaining in
  {| errors := errors st2;
     messageCount := messageCount st2;
     eventBuffer := [];
     snapshotReceived := snapshotReceived st2;
     localOrderBook := localOrderBook st2 |}.

(** [fetchAndSyncSnapshot()]: the session after the call and the number
    of fetches it made, when the loop ends within [fuel] turns. *)
Definition fetchAndSyncSnapshot (fuel : nat) (world : World) (st : t)
  : option (t * nat) :=
  match fetchLoop fuel world 0%nat st with
  | Some (snapshot, st1, n) => Some (syncFromSnapshot st1 snapshot, n)
  | None => None
  end.

End Session.

(** ** Specification-side definitions *)

(** The quantity the levels of an event state last for [price], if any:
    later levels of one event override earlier ones. *)
Fixpoint lastUpdate (price : string) (levels : list Level) : option string :=
  match levels with
  | [] => None
  | (p, q) :: rest =>
      match lastUpdate price rest with
      | Some q' => Some q'
      | None => if decide (p = price) then Some q else None
      end
  end.

(** The entry of a price after an update: untouched when the event does
    not mention the price, removed by a zero quantity, overwritten by any
    other. *)
Definition levelAfter (old upd : option string) : option string :=
  match upd with
  | None => old
  | Some q => if JS.parseFloatIsZero q then None else Some q
  end.

(** [side'] is [side] after the levels [levels] were processed. *)
Definition sideUpdated (side : gmap string string) (levels : list Level)
           (side' : gmap string string) : Prop :=
  forall price, side' !! price = levelAfter (side !! price) (lastUpdate price levels).

(** No entry of the side has a quantity that the book reads as zero. *)
Definition noZeroEntry (side : gmap string string) : Prop :=
  forall price qty, side !! price = Some qty -> JS.parseFloatIsZero qty = false.

(** No level of the list states a quantity that the book reads as zero. *)
Definition noZeroLevel (levels : list Level) : bool :=
  forallb (fun level : Level => negb (JS.parseFloatIsZero level.2)) levels.

(** A sequence of [applyEvent] calls on one book, each with its own
    optional error collector; the book after the last call. *)
Definition applyCalls (book : LocalOrderBook.t)
           (calls : list (DepthUpdateEvent * option (list string)))
  : LocalOrderBook.t :=
  foldl (fun b '(event, errors) => (LocalOrderBook.applyEvent b event errors).1)
        book calls.

(** The session once the events that arrive during the fetches
    [n], [n + 1], ..., [n + k - 1] have gone through the message handler. *)
Fixpoint received (world : Session.World) (st : Session.t) (n k : nat)
  : Session.t :=
  match k with
  | O => st
  | S k' =>
      received world (foldl Session.onMessage st (world n).1) (S n) k'
  end.

(** Is the snapshot of fetch [n + k] fetched again, in the run of the loop
    that starts with fetch [n] in session [st]? *)
Definition rejected (world : Session.World) (st : Session.t) (n k : nat)
  : bool :=
  Session.mustRefetch
    (Session.eventBuffer (received world st n (S k)))
    (world (n + k)%nat).2.

(** A stream without a gap of its own that resumes at id [next]: every
    event starts where the one before it ended and covers at least one
    id. *)
Fixpoint contiguousFrom (next : Z) (events : list DepthUpdateEvent) : bool :=
  match events with
  | [] => true
  | e :: rest =>
      match ev_U e, ev_u e with
      | JS.JNum U, JS.JNum u =>
          (U =? next) && (U <=? u) && contiguousFrom (u + 1) rest
      | _, _ => false
      end
  end.

(** Session [st'] differs from [st] by [count] more error messages (and
    by the message counter) only. *)
Definition onlyLogged (st st' : Session.t) (count : nat) : Prop :=
  Session.localOrderBook st' = Session.localOrderBook st
  /\ Session.snapshotReceived st' = Session.snapshotReceived st
  /\ Session.eventBuffer st' = Session.eventBuffer st
  /\ length (Session.errors st')
     = (length (Session.errors st) + count)%nat.



(** ** Scenarios

    The concrete books, snapshots and events the results below are
    evaluated on; the first ones are those of the testable properties. *)

Module Scenario.

(** [{lastUpdateId: 100, bids: [["10.0","1"]], asks: [["10.1","1"]]}] *)
Definition snapshot100 : OrderBookSnapshot :=
  {| snap_lastUpdateId := 100;
     snap_bids := [("10.0", "1")];
     snap_asks := [("10.1", "1")] |}.

Definition book100 : LocalOrderBook.t :=
  LocalOrderBook.setFromSnapshot LocalOrderBook.new snapshot100.

(** [{U: 105, u: 110, bids: [["10.0","2"]], asks: []}]: a gap after 100. *)
Definition event105 : DepthUpdateEvent :=
  {| ev_U := JS.JNum 105; ev_u := JS.JNum 110;
     ev_bids := Some [("10.0", "2")]; ev_asks := Some [] |}.

(** [{U: 95, u: 101, bids: [["10.0","0"]], asks: []}] *)
Definition event95 : DepthUpdateEvent :=
  {| ev_U := JS.JNum 95; ev_u := JS.JNum 101;
     ev_bids := Some [("10.0", "0")]; ev_asks := Some [] |}.

(** [{U: 101, bids: [["10.0","5"]], asks: []}]: the field [u] is missing. *)
Definition eventWithoutLast : DepthUpdateEvent :=
  {| ev_U := JS.JNum 101; ev_u := JS.JUndefined;
     ev_bids := Some [("10.0", "5")]; ev_asks := Some [] |}.

(** A snapshot that lists a level of quantity zero. *)
Definition snapshotWithZero : OrderBookSnapshot :=
  {| snap_lastUpdateId := 100;
     snap_bids := [("10.0", "0")];
     snap_asks := [] |}.

(** The session live on [book100]: the snapshot was accepted with an
    empty buffer. *)
Definition live100 : Session.t :=
  Session.syncFromSnapshot Session.init snapshot100.

(** [{U: 111, u: 115, bids: [], asks: [["10.1","0"]]}]: the event that
    follows [event105] in the stream. *)
Definition event111 : DepthUpdateEvent :=
  {| ev_U := JS.JNum 111; ev_u := JS.JNum 115;
     ev_bids := Some []; ev_asks := Some [("10.1", "0")] |}.

(** [{U: 50, u: 55, bids: [], asks: []}] *)
Definition event50 : DepthUpdateEvent :=
  {| ev_U := JS.JNum 50; ev_u := JS.JNum 55;
     ev_bids := Some []; ev_asks := Some [] |}.

Definition snapshot40 : OrderBookSnapshot :=
  {| snap_lastUpdateId := 40; snap_bids := []; snap_asks := [] |}.

Definition snapshot60 : OrderBookSnapshot :=
  {| snap_lastUpdateId := 60;
     snap_bids := [("10.0", "1")];
     snap_asks := [] |}.

(** The session that buffered [event50] before any snapshot. *)
Definition buffered50 : Session.t :=
  Session.onMessage Session.init event50.

(** [event50] arrives during the first fetch, and the snapshot source
    lags for ever. *)
Definition staleWorld : Session.World :=
  fun n =>
    match n with
    | O => ([event50], snapshot40)
    | S _ => ([], snapshot40)
    end.

(** [event50] arrives during the first fetch, which answers with a stale
    snapshot; the second fetch answers with a fresh one. *)
Definition lateWorld : Session.World :=
  fun n =>
    match n with
    | O => ([event50], snapshot40)
    | S _ => ([], snapshot60)
    end.

(** Two calls on [book100]: the second one passes an error collector. *)
Definition calls100 : list (DepthUpdateEvent * option (list string)) :=
  [(event95, None); (event105, Some [])].



End Scenario.

(** ** The rest of the order book and of the session *)

(** A call whose event is older than the cursor [C]. *)
Definition staleCall (C : Z) (call : DepthUpdateEvent * option (list string))
  : bool :=
  match ev_u call.1 with
  | JS.JNum u => u <? C
  | JS.JUndefined => false
  end.

(** The levels a side field contributes: none when it is not an array. *)
Definition levelsOf (field : option (list Level)) : list Level :=
  default [] field.

(** The last event of the run [e :: rest]. *)
Fixpoint lastEvent (e : DepthUpdateEvent) (rest : list DepthUpdateEvent)
  : DepthUpdateEvent :=
  match rest with
  | [] => e
  | e' :: rest' => lastEvent e' rest'
  end.

(** The run [e :: rest] as one event: it covers the ids from the first
    [U] to the last [u] and lists the levels of all events in order. *)
Definition mergeEvents (e : DepthUpdateEvent) (rest : list DepthUpdateEvent)
  : DepthUpdateEvent :=
  {| ev_U := ev_U e;
     ev_u := ev_u (lastEvent e rest);
     ev_bids := Some (concat (map (fun ev => levelsOf (ev_bids ev)) (e :: rest)));
     ev_asks := Some (concat (map (fun ev => levelsOf (ev_asks ev)) (e :: rest))) |}.

(** Session [st'] is [st] after [event] was applied to its book, with
    nothing reported. *)
Definition appliedStep (st st' : Session.t) (event : DepthUpdateEvent)
  : Prop :=
  Session.errors st' = Session.errors st
  /\ Session.snapshotReceived st' = Session.snapshotReceived st
  /\ Session.localOrderBook st'
     = LocalOrderBook.applyUpdates (Session.localOrderBook st) event.

(** The events that arrive during the fetches [n], ..., [n + k - 1]. *)
Definition arrivals (world : Session.World) (n k : nat)
  : list DepthUpdateEvent :=
  concat (map (fun i => (world i).1) (seq n k)).

(** The error handler given to [wsClient.connect]:
    [errors.push('WebSocket error: ' + err.message)]. *)
Definition onError (st : Session.t) (message : string) : Session.t :=
  {| Session.errors := Session.errors st ++ ["WebSocket error: " +:+ message];
     Session.messageCount := Session.messageCount st;
     Session.eventBuffer := Session.eventBuffer st;
     Session.snapshotReceived := Session.snapshotReceived st;
     Session.localOrderBook := Session.localOrderBook st |}.

(** What the session receives from the socket after the snapshot call:
    a parsed message or an error. *)
Inductive Delivery : Type :=
| Message (json : DepthUpdateEvent)
| Failure (message : string).

Definition deliver (st : Session.t) (d : Delivery) : Session.t :=
  match d with
  | Message json => Session.onMessage st json
  | Failure message => onError st message
  end.

(** The messages among the deliveries. *)
Definition messagesOf (deliveries : list Delivery) : list DepthUpdateEvent :=
  omap (fun d => match d with Message json => Some json | Failure _ => None end)
       deliveries.

(** The final assertion of the test: [expect(errors.length).toBe(0)]. *)
Definition testPasses (st : Session.t) : bool :=
  (length (Session.errors st) =? 0)%nat.

(** *** [getTopBid] and [getTopAsk]

    The two readers work on JavaScript numbers.  The number type, with
    [parseFloat] and subtraction, the order in which a [Map] lists its
    entries and [Array.prototype.sort] are parameters of the model. *)

Section TopOfBook.

Variable number : Type.
Variable parseFloat : string -> number.
Variable minus : number -> number -> number.
Variable entries : gmap string string -> list (string * string).
Variable sort :
  (number * number -> number * number -> number) ->
  list (number * number) -> list (number * number).

(** [Array.from(side.entries()).map(([p, q]) => [parseFloat(p), parseFloat(q)])] *)
Definition parsedEntries (side : gmap string string) : list (number * number) :=
  map (fun '(p, q) => (parseFloat p, parseFloat q)) (entries side).

(** [sorted.length > 0 && sorted[0].length === 2
      ? [sorted[0][0], sorted[0][1]] : null] *)
Definition firstOrNull (sorted : list (number * number))
  : option (number * number) :=
  match sorted with
  | x :: _ => Some (x.1, x.2)
  | [] => None
  end.

Definition getTopBid (book : LocalOrderBook.t) : option (number * number) :=
  firstOrNull
    (sort (fun a b => minus b.1 a.1) (parsedEntries (LocalOrderBook.bids book))).

Definition getTopAsk (book : LocalOrderBook.t) : option (number * number) :=
  firstOrNull
    (sort (fun a b => minus a.1 b.1) (parsedEntries (LocalOrderBook.asks book))).

End TopOfBook.

(** ** [utils/wsClient.ts]

    The client's own state is the flag [isOpen]; [closeCalls] counts the
    calls of [ws.close()] it has made. *)

Module WSClient.

Record t : Type := {
  isOpen : bool;
  closeCalls : nat
}.

(** [constructor(url)] *)
Definition new : t := {| isOpen := false; closeCalls := 0%nat |}.

(** The handler of the socket's [open] event. *)
Definition onOpen (client : t) : t :=
  {| isOpen := true; closeCalls := closeCalls client |}.

(** [close()] *)
Definition close (client : t) : t :=
  if isOpen client
  then {| isOpen := false; closeCalls := S (closeCalls client) |}
  else client.

(** What happens to a client: the socket opens, or the owner calls
    [close()]. *)
Inductive action : Type :=
| Opened
| Close.

Definition step (client : t) (a : action) : t :=
  match a with
  | Opened => onOpen client
  | Close => close client
  end.

Definition isOpened (a : action) : bool :=
  match a with Opened => true | Close => false end.

End WSClient.

(** ** Further scenarios *)

Module Example.

(** Two deliveries of an event that is older than cursor 100. *)
Definition staleCalls : list (DepthUpdateEvent * option (list string)) :=
  [(Scenario.event50, None); (Scenario.event50, Some [])].

(** [{U: 101, u: 103, bids: [["10.0","2"],["9.9","1"]], asks: []}] and the
    same event with its bids in the other order. *)
Definition event101 : DepthUpdateEvent :=
  {| ev_U := JS.JNum 101; ev_u := JS.JNum 103;
     ev_bids := Some [("10.0", "2"); ("9.9", "1")]; ev_asks := Some [] |}.

Definition event101' : DepthUpdateEvent :=
  {| ev_U := JS.JNum 101; ev_u := JS.JNum 103;
     ev_bids := Some [("9.9", "1"); ("10.0", "2")]; ev_asks := Some [] |}.

(** [{U: 104, u: 104, bids: [["10.0","0"]], asks: [["10.1","3"]]}]: the
    event that follows [event101]. *)
Definition event104 : DepthUpdateEvent :=
  {| ev_U := JS.JNum 104; ev_u := JS.JNum 104;
     ev_bids := Some [("10.0", "0")]; ev_asks := Some [("10.1", "3")] |}.

(** The session that buffered [event95] before any snapshot. *)
Definition buffered95 : Session.t :=
  Session.onMessage Session.init Scenario.event95.

(** No event arrives while the snapshot is fetched. *)
Definition quietWorld : Session.World :=
  fun _ => ([], Scenario.snapshot40).

(** [{U: 105, u: 50, bids: [], asks: []}]: beyond cursor 100 by its [U],
    older than it by its [u]. *)
Definition eventBackwards : DepthUpdateEvent :=
  {| ev_U := JS.JNum 105; ev_u := JS.JNum 50;
     ev_bids := Some []; ev_asks := Some [] |}.


(** A message beyond the cursor, then a socket error. *)
Definition deliveries : list Delivery :=
  [Message Scenario.event105; Failure "socket hang up"].

(** A reader of the integer part of a numeral, standing for [parseFloat],
    and a sort by the sign of the comparator, standing for
    [Array.prototype.sort]. *)
Definition integerPart (s : string) : Z :=
  Z.of_N (JS.digitsValue (JS.takeDigits s).1).

Definition sortBy (compare : Z * Z -> Z * Z -> Z) (l : list (Z * Z))
  : list (Z * Z) :=
  merge_sort (fun a b => compare a b <= 0)
             (H := fun a b => Z.le_dec (compare a b) 0) l.

End Example.

(** ** Reading decimal numerals *)

Section ParseLemmas.

Import JS.








(** On safe integers the source's [z + 1] is the integer sum. *)
Lemma plusOne_safe z :
  JSInt.isSafeInteger z = true -> JSInt.plusOne z = z + 1.
Proof.
  unfold JSInt.isSafeInteger, JSInt.plusOne. intros Hsafe.
  apply andb_prop in Hsafe as [Hlow Hhigh].
  apply Z.leb_le in Hlow. apply Z.leb_le in Hhigh.
  assert (2 ^ 53 = 9007199254740992) as Hpow by reflexivity.
  destruct (Z.eq_dec (z + 1) (2 ^ 53)) as [->|Hbelow]; [reflexivity|].
  unfold JSInt.toNumber.
  assert (Z.log2 (Z.abs (z + 1)) < 53) as Hbits.
  { destruct (Z.eq_dec (Z.abs (z + 1)) 0) as [->|Hnz]; [by cbn|].
    apply Z.log2_lt_pow2; lia. }
  by destruct (Z.leb_spec (Z.log2 (Z.abs (z + 1)) - 52) 0); [|lia].
Qed.

End ParseLemmas.

(** ** The order book: helper lemmas *)

Section SideLemmas.

Import LocalOrderBook.

Implicit Types (side : gmap string string) (levels : list Level).

Lemma applyLevel_lookup side p q price :
  applyLevel side (p, q) !! price
  = if decide (p = price) then levelAfter (side !! price) (Some q)
    else side !! price.
Proof.
  unfold applyLevel, levelAfter.
  destruct (decide (p = price)) as [->|Hne];
    destruct (JS.parseFloatIsZero q).
  - apply lookup_delete_eq.
  - apply lookup_insert_eq.
  - by apply lookup_delete_ne.
  - by apply lookup_insert_ne.
Qed.

Lemma foldl_applyLevel_updated levels :
  forall side, sideUpdated side levels (foldl applyLevel side levels).
Proof.
  induction levels as [|[p q] rest IH]; intros side price.
  - reflexivity.
  - cbn [foldl lastUpdate].
    rewrite (IH (applyLevel side (p, q)) price).
    destruct (lastUpdate price rest) as [q'|]; [reflexivity|].
    cbn [levelAfter]. rewrite applyLevel_lookup.
    by destruct (decide (p = price)).
Qed.

Lemma applyLevel_noZero side level :
  noZeroEntry side -> noZeroEntry (applyLevel side level).
Proof.
  destruct level as [p q]. intros Hside price qty.
  rewrite applyLevel_lookup.
  destruct (decide (p = price)) as [->|Hne]; [|apply Hside].
  unfold levelAfter.
  destruct (JS.parseFloatIsZero q) eqn:Hq; [discriminate|].
  by intros [= <-].
Qed.

Lemma foldl_applyLevel_noZero levels :
  forall side, noZeroEntry side -> noZeroEntry (foldl applyLevel side levels).
Proof.
  induction levels as [|level rest IH]; intros side Hside;
    cbn [foldl]; [done|].
  by apply IH, applyLevel_noZero.
Qed.

Lemma applyLevels_noZero side (field : option (list Level)) :
  noZeroEntry side -> noZeroEntry (applyLevels side field).
Proof.
  destruct field as [ls|]; cbn [applyLevels];
    [apply foldl_applyLevel_noZero|done].
Qed.

Lemma setLevels_lookup levels :
  forall side price,
    setLevels side levels !! price
    = match lastUpdate price levels with
      | Some q => Some q
      | None => side !! price
      end.
Proof.
  unfold setLevels.
  induction levels as [|[p q] rest IH]; intros side price;
    cbn [foldl lastUpdate]; [reflexivity|].
  rewrite IH.
  destruct (lastUpdate price rest); [reflexivity|].
  destruct (decide (p = price)) as [->|Hne].
  - apply lookup_insert_eq.
  - by apply lookup_insert_ne.
Qed.

Lemma lastUpdate_In price q levels :
  lastUpdate price levels = Some q -> In (price, q) levels.
Proof.
  induction levels as [|[p0 q0] rest IH]; simpl; [discriminate|].
  destruct (lastUpdate price rest) as [q'|].
  - intros [= ->]. right. by apply IH.
  - destruct (decide (p0 = price)) as [->|]; [|discriminate].
    intros [= ->]. by left.
Qed.

Lemma setLevels_noZero levels :
  noZeroLevel levels = true -> noZeroEntry (setLevels ∅ levels).
Proof.
  intros Hlv price qty. rewrite setLevels_lookup.
  destruct (lastUpdate price levels) as [q|] eqn:Hlast.
  - intros [= <-]. apply lastUpdate_In in Hlast.
    unfold noZeroLevel in Hlv. rewrite forallb_forall in Hlv.
    specialize (Hlv _ Hlast). by apply negb_true_iff in Hlv.
  - by rewrite lookup_empty.
Qed.

(** The four ways a call of [applyEvent] can go. *)
Lemma applyEvent_cases book event errors :
  applyEvent book event errors = (book, errors)
  \/ (exists last,
         lastUpdateId book = Some last
         /\ applyEvent book event errors
            = (book, pushError errors (gapMessage (ev_U event) last)))
  \/ applyEvent book event errors = (applyUpdates book event, errors).
Proof.
  unfold applyEvent.
  destruct (ev_u event) as [u|]; [|by right; right].
  destruct (lastUpdateId book) as [last|] eqn:Hlast; [|by right; right].
  destruct (u <? last); [by left|].
  destruct (JS.gt (ev_U event) (last + 1)); [|by right; right].
  right; left. by exists last.
Qed.

Lemma applyEvent_cursor book event errors last :
  lastUpdateId book = Some last ->
  lastUpdateId (applyEvent book event errors).1 = Some last
  \/ (exists u, ev_u event = JS.JNum u /\ last <= u
                /\ lastUpdateId (applyEvent book event errors).1 = Some u).
Proof.
  intros Hlast. unfold applyEvent. rewrite Hlast.
  destruct (ev_u event) as [u|] eqn:Hu; simpl.
  - destruct (Z.ltb_spec u last); simpl; [by left|].
    destruct (JS.gt (ev_U event) (last + 1)); simpl; [by left|].
    rewrite Hu. right. by exists u.
  - rewrite Hu. by left.
Qed.

Lemma applyEvent_noZero book event errors :
  noZeroEntry (bids book) -> noZeroEntry (asks book) ->
  noZeroEntry (bids (applyEvent book event errors).1)
  /\ noZeroEntry (asks (applyEvent book event errors).1).
Proof.
  intros Hb Ha.
  destruct (applyEvent_cases book event errors)
    as [-> | [(last & _ & ->) | ->]]; simpl; try done.
  split; by apply applyLevels_noZero.
Qed.

End SideLemmas.

(** ** The order book: results *)

Section OrderBookResults.

Import LocalOrderBook.

(** C2, the claim as stated fails: a gap is not always signalled.  A
    call that passes no error collector returns as the call of a skipped
    event does, and an event beyond the cursor by its [U] but older than
    it by its [u] leaves the collector it is given empty.  And beyond the
    safe integers the source does not compare [U] with [C + 1]: at cursor
    [2^53 + 2] its sum is [2^53 + 4]. *)
Lemma gap_is_not_always_signalled :
  applyEvent Scenario.book100 Scenario.event105 None
  = (Scenario.book100, None)
  /\ applyEvent Scenario.book100 Scenario.event105 None
     = applyEvent Scenario.book100 Scenario.event50 None
  /\ applyEvent Scenario.book100 Example.eventBackwards (Some [])
     = (Scenario.book100, Some [])
  /\ JSInt.plusOne (2 ^ 53 + 2) = 2 ^ 53 + 4.
Proof. by vm_compute. Qed.

(** C2, amended.  On an initialized book whose cursor [C] is a safe
    integer, so that the source's [lastUpdateId + 1] is [C + 1], an event
    with numeric [U] and [u] and [U > C + 1] ([U] a safe integer too, so
    that the message prints it in full) changes nothing in the book:
    both sides and [lastUpdateId] are as before the call, whatever else
    the call is given.  The gap is signalled through the error collector
    only: when the call passes one and the event is not older than the
    cursor ([u >= C]), the collector gets exactly one more message, the
    out-of-sequence text with [U] and [C + 1]; with no collector nothing
    is signalled, and an event older than the cursor ([u < C]) is skipped
    with its collector untouched. *)
Theorem applyEvent_gap_no_mutation
        (book : t) (event : DepthUpdateEvent) (C U u : Z) :
  lastUpdateId book = Some C ->
  JSInt.isSafeInteger C = true ->
  ev_U event = JS.JNum U ->
  ev_u event = JS.JNum u ->
  C + 1 < U ->
  JSInt.isSafeInteger U = true ->
  JSInt.plusOne C = C + 1
  /\ (forall errors, (applyEvent book event errors).1 = book)
  /\ (C <= u ->
      forall collected : list string,
        (applyEvent book event (Some collected)).2
        = Some (collected
                  ++ ["Event U=" +:+ pretty U
                        +:+ " > lastUpdateId+1=" +:+ pretty (C + 1)
                        +:+ ", out of sequence. Restarting sync."]))
  /\ (applyEvent book event None).2 = None
  /\ (u < C -> forall errors, (applyEvent book event errors).2 = errors).
Proof.
  intros Hlast Hsafe HU Hu Hgap Hprint.
  split; [by apply plusOne_safe|].
  unfold applyEvent. rewrite Hlast, Hu, HU. cbn [JS.gt].
  destruct (Z.ltb_spec u C) as [Hold|Hnew];
    destruct (Z.ltb_spec (C + 1) U) as [_|Hcontra]; try lia.
  - split; [done|]. split; [lia|]. by split.
  - split; [done|]. split; [by intros _ collected|]. split; [done|lia].
Qed.

(** C7.  Over any sequence of [applyEvent] calls on an initialized book
    the cursor never decreases: after the calls it is either the cursor
    the book had, or the [u] of one of the events, and it is at least
    the cursor the book had. *)
Theorem lastUpdateId_non_decreasing
        (calls : list (DepthUpdateEvent * option (list string))) :
  forall (book : t) (C : Z),
    lastUpdateId book = Some C ->
    exists C',
      lastUpdateId (applyCalls book calls) = Some C'
      /\ C <= C'
      /\ (C' = C
          \/ exists call, In call calls /\ ev_u call.1 = JS.JNum C').
Proof.
  unfold applyCalls.
  induction calls as [|[event errors] rest IH]; intros book C Hlast.
  - exists C. cbn [foldl]. repeat split; [done|lia|by left].
  - cbn [foldl].
    destruct (applyEvent_cursor book event errors C Hlast)
      as [Hsame | (u & Hu & Hle & Hmoved)].
    + destruct (IH _ _ Hsame) as (C' & Hrun & Hle' & Hfrom).
      exists C'. repeat split; [done|done|].
      destruct Hfrom as [->|(call & Hin & Hcall)]; [by left|].
      right. exists call. split; [by right|done].
    + destruct (IH _ _ Hmoved) as (C' & Hrun & Hle' & Hfrom).
      exists C'. repeat split; [done|lia|].
      right. destruct Hfrom as [->|(call & Hin & Hcall)].
      * exists (event, errors). split; [by left|done].
      * exists call. split; [by right|done].
Qed.



(** C10.  On a book that no snapshot has initialized ([lastUpdateId] is
    [null]) no sequence check is made: whatever [U] and [u] are, the
    levels of both sides are applied and the cursor becomes [u]. *)
Theorem applyEvent_uninitialized
        (book : t) (event : DepthUpdateEvent) (errors : option (list string))
        (u : Z) (bidLevels askLevels : list Level) :
  lastUpdateId book = None ->
  ev_u event = JS.JNum u ->
  ev_bids event = Some bidLevels ->
  ev_asks event = Some askLevels ->
  let book' := (applyEvent book event errors).1 in
  (applyEvent book event errors).2 = errors
  /\ lastUpdateId book' = Some u
  /\ sideUpdated (bids book) bidLevels (bids book')
  /\ sideUpdated (asks book) askLevels (asks book').
Proof.
  intros Hlast Hu Hbids Hasks. unfold applyEvent.
  rewrite Hlast, Hu.
  cbn [fst snd applyUpdates bids asks lastUpdateId].
  rewrite Hu, Hbids, Hasks. cbn [applyLevels].
  repeat split; apply foldl_applyLevel_updated.
Qed.

(** C4, the claim as stated fails: an event without [u] is not dropped,
    its bid level is written into the book. *)
Lemma malformed_event_mutates_book :
  ev_u Scenario.eventWithoutLast = JS.JUndefined
  /\ bids Scenario.book100 !! "10.0" = Some "1"
  /\ bids (applyEvent Scenario.book100 Scenario.eventWithoutLast
                      (Some [])).1 !! "10.0" = Some "5".
Proof. by vm_compute. Qed.

(** C4, amended.  A malformed event is not rejected as a whole; only its
    malformed part is skipped.  A side that is not an array is left
    unchanged.  An event without a numeric [u] passes no sequence check:
    nothing is reported, [lastUpdateId] stays, and each side that is an
    array is applied.  An event without [U] is never a gap: nothing is
    reported, and if its [u] is not older than the cursor it is applied
    and the cursor moves to [u]. *)
Theorem malformed_event_partly_applied
        (book : t) (event : DepthUpdateEvent) (errors : option (list string)) :
  let book' := (applyEvent book event errors).1 in
  (ev_bids event = None -> bids book' = bids book)
  /\ (ev_asks event = None -> asks book' = asks book)
  /\ (ev_u event = JS.JUndefined ->
      (applyEvent book event errors).2 = errors
      /\ lastUpdateId book' = lastUpdateId book
      /\ (forall levels, ev_bids event = Some levels ->
                         sideUpdated (bids book) levels (bids book'))
      /\ (forall levels, ev_asks event = Some levels ->
                         sideUpdated (asks book) levels (asks book')))
  /\ (ev_U event = JS.JUndefined ->
      (applyEvent book event errors).2 = errors
      /\ (forall C u, lastUpdateId book = Some C ->
                      ev_u event = JS.JNum u -> C <= u ->
                      book' = applyUpdates book event)).
Proof.
  cbn zeta. split; [|split; [|split]].
  - intros Hbids.
    destruct (applyEvent_cases book event errors)
      as [-> | [(last & _ & ->) | ->]]; cbn; try done.
    by rewrite Hbids.
  - intros Hasks.
    destruct (applyEvent_cases book event errors)
      as [-> | [(last & _ & ->) | ->]]; cbn; try done.
    by rewrite Hasks.
  - intros Hu. unfold applyEvent. rewrite Hu.
    cbn [fst snd applyUpdates bids asks lastUpdateId]. rewrite Hu.
    split; [done|]. split; [done|].
    split; intros levels Hside; rewrite Hside;
      apply foldl_applyLevel_updated.
  - intros HU. split.
    + unfold applyEvent. rewrite HU. cbn [JS.gt].
      destruct (ev_u event); [|done].
      destruct (lastUpdateId book); [|done].
      by destruct (_ <? _).
    + intros C u Hlast Hu Hle. unfold applyEvent.
      rewrite Hu, Hlast, HU. cbn [JS.gt].
      by destruct (Z.ltb_spec u C); [lia|].
Qed.

Lemma applyCalls_noZero calls :
  forall book,
    noZeroEntry (bids book) -> noZeroEntry (asks book) ->
    noZeroEntry (bids (applyCalls book calls))
    /\ noZeroEntry (asks (applyCalls book calls)).
Proof.
  unfold applyCalls.
  induction calls as [|[event errors] rest IH]; intros book Hb Ha;
    cbn [foldl]; [done|].
  destruct (applyEvent_noZero book event errors Hb Ha). by apply IH.
Qed.

(** C5, the claim as stated fails: [setFromSnapshot] copies a level of
    quantity zero into the book. *)
Lemma snapshot_zero_level_is_inserted :
  ~ noZeroEntry
      (bids (setFromSnapshot LocalOrderBook.new Scenario.snapshotWithZero)).
Proof.
  intros Hnone. specialize (Hnone "10.0" "0").
  assert (JS.parseFloatIsZero "0" = false) as Hzero by (by apply Hnone).
  by vm_compute in Hzero.
Qed.

(** C5, amended.  When the snapshot lists no level of quantity zero, no
    side of the book holds an entry of quantity zero after
    [setFromSnapshot] nor after any sequence of [applyEvent] calls that
    follows: a zero quantity in an event removes the price and never
    inserts an entry. *)
Theorem no_zero_entry_after_clean_snapshot
        (book0 : t) (snapshot : OrderBookSnapshot)
        (calls : list (DepthUpdateEvent * option (list string))) :
  noZeroLevel (snap_bids snapshot) = true ->
  noZeroLevel (snap_asks snapshot) = true ->
  let book := applyCalls (setFromSnapshot book0 snapshot) calls in
  noZeroEntry (bids book) /\ noZeroEntry (asks book).
Proof.
  intros Hbids Hasks.
  apply applyCalls_noZero; cbn [setFromSnapshot bids asks];
    by apply setLevels_noZero.
Qed.

End OrderBookResults.

(** ** The session: helper lemmas *)

Section SessionLemmas.

Import Session.

Lemma fetchLoop_step fuel world n st :
  fetchLoop (S fuel) world n st
  = if mustRefetch (eventBuffer (foldl onMessage st (world n).1)) (world n).2
    then fetchLoop fuel world (S n) (foldl onMessage st (world n).1)
    else Some ((world n).2, foldl onMessage st (world n).1, S n).
Proof. cbn [fetchLoop]. by destruct (world n). Qed.

Lemma rejected_first world st n :
  rejected world st n 0
  = mustRefetch (eventBuffer (foldl onMessage st (world n).1)) (world n).2.
Proof. unfold rejected. cbn [received]. by rewrite Nat.add_0_r. Qed.

Lemma rejected_next world st n k :
  rejected world st n (S k)
  = rejected world (foldl onMessage st (world n).1) (S n) k.
Proof. unfold rejected. cbn [received]. by rewrite Nat.add_succ_r. Qed.

Lemma fetchLoop_first_accepted k :
  forall fuel world n st,
    (forall i, (i < k)%nat -> rejected world st n i = true) ->
    rejected world st n k = false ->
    (k < fuel)%nat ->
    fetchLoop fuel world n st
    = Some ((world (n + k)%nat).2, received world st n (S k), S (n + k)).
Proof.
  induction k as [|k IH]; intros fuel world n st Hbefore Hfresh Hfuel;
    (destruct fuel as [|fuel]; [lia|]); rewrite fetchLoop_step.
  - rewrite rejected_first in Hfresh. rewrite Hfresh.
    cbn [received]. by rewrite Nat.add_0_r.
  - rewrite <- rejected_first, (Hbefore 0%nat) by lia.
    rewrite (IH fuel world (S n)).
    + cbn [received]. by rewrite Nat.add_succ_r.
    + intros i Hi. rewrite <- rejected_next. apply Hbefore. lia.
    + by rewrite <- rejected_next.
    + lia.
Qed.

Lemma fetchLoop_always_rejected fuel :
  forall world n st,
    (forall i, rejected world st n i = true) ->
    fetchLoop fuel world n st = None.
Proof.
  induction fuel as [|fuel IH]; intros world n st Hall; [reflexivity|].
  rewrite fetchLoop_step, <- rejected_first, Hall.
  apply IH. intros i. rewrite <- rejected_next. apply Hall.
Qed.

(** The handler never removes or reorders what the buffer holds. *)
Lemma onMessage_buffer st json :
  exists more, eventBuffer (onMessage st json) = eventBuffer st ++ more.
Proof.
  unfold onMessage. cbn.
  destruct (snapshotReceived st); cbn.
  - exists []. unfold applyEvent. cbn.
    destruct (LocalOrderBook.applyEvent _ _ _). cbn.
    by rewrite app_nil_r.
  - by exists [json].
Qed.

Lemma foldl_onMessage_buffer arrived :
  forall st,
    exists more,
      eventBuffer (foldl onMessage st arrived) = eventBuffer st ++ more.
Proof.
  induction arrived as [|json rest IH]; intros st; cbn [foldl].
  - exists []. by rewrite app_nil_r.
  - destruct (IH (onMessage st json)) as (more2 & ->).
    destruct (onMessage_buffer st json) as (more1 & ->).
    exists (more1 ++ more2). by rewrite app_assoc.
Qed.

(** Before the snapshot is loaded the handler only buffers. *)
Lemma foldl_onMessage_buffering arrived :
  forall st,
    snapshotReceived st = false ->
    snapshotReceived (foldl onMessage st arrived) = false
    /\ localOrderBook (foldl onMessage st arrived) = localOrderBook st
    /\ eventBuffer (foldl onMessage st arrived) = eventBuffer st ++ arrived.
Proof.
  induction arrived as [|json rest IH]; intros st Hbuf; cbn [foldl].
  - by rewrite app_nil_r.
  - set (st1 := {| errors := errors st;
                   messageCount := S (messageCount st);
                   eventBuffer := eventBuffer st ++ [json];
                   snapshotReceived := false;
                   localOrderBook := localOrderBook st |}).
    assert (onMessage st json = st1) as ->.
    { unfold onMessage. cbn. by rewrite Hbuf. }
    destruct (IH st1 eq_refl) as (-> & -> & ->).
    cbn. by rewrite <- app_assoc.
Qed.


End SessionLemmas.

(** ** The session: results *)

Section SessionResults.

Import Session.

(** The session's [applyEvent] on an event beyond the cursor: the book
    pushes the message and returns, and nothing else happens. *)
Lemma applyEvent_gap st event C U u :
  LocalOrderBook.lastUpdateId (localOrderBook st) = Some C ->
  ev_U event = JS.JNum U ->
  ev_u event = JS.JNum u ->
  C + 1 < U ->
  U <= u ->
  applyEvent st event
  = {| errors := errors st ++ [LocalOrderBook.gapMessage (JS.JNum U) C];
       messageCount := messageCount st;
       eventBuffer := eventBuffer st;
       snapshotReceived := snapshotReceived st;
       localOrderBook := localOrderBook st |}.
Proof.
  intros Hlast HU Hu Hgap Hrange.
  unfold applyEvent, LocalOrderBook.applyEvent.
  rewrite Hu, Hlast, HU. cbn [JS.gt].
  destruct (Z.ltb_spec u C) as [Hold|_]; [lia|].
  destruct (Z.ltb_spec (C + 1) U) as [_|Hcontra]; [|lia].
  reflexivity.
Qed.

Lemma onMessage_live st event :
  snapshotReceived st = true ->
  onMessage st event
  = applyEvent {| errors := errors st;
                  messageCount := S (messageCount st);
                  eventBuffer := eventBuffer st;
                  snapshotReceived := snapshotReceived st;
                  localOrderBook := localOrderBook st |} event.
Proof. intros Hlive. unfold onMessage. cbn. by rewrite Hlive. Qed.

Lemma foldl_gaps (handler : t -> DepthUpdateEvent -> t) events :
  (forall st event C U u,
      snapshotReceived st = true ->
      LocalOrderBook.lastUpdateId (localOrderBook st) = Some C ->
      ev_U event = JS.JNum U -> ev_u event = JS.JNum u ->
      C + 1 < U -> U <= u ->
      onlyLogged st (handler st event) 1) ->
  forall st C next,
    snapshotReceived st = true ->
    LocalOrderBook.lastUpdateId (localOrderBook st) = Some C ->
    C + 1 < next ->
    contiguousFrom next events = true ->
    onlyLogged st (foldl handler st events) (length events).
Proof.
  intros Hstep.
  induction events as [|event rest IH];
    intros st C next Hlive Hlast Hgap Hrun; cbn [foldl length].
  - unfold onlyLogged. repeat split; lia.
  - cbn [contiguousFrom] in Hrun.
    destruct (ev_U event) as [U|] eqn:HU; [|discriminate].
    destruct (ev_u event) as [u|] eqn:Hu; [|discriminate].
    apply andb_prop in Hrun as [Hhead Hrest].
    apply andb_prop in Hhead as [Hstart Hrange].
    apply Z.eqb_eq in Hstart. apply Z.leb_le in Hrange.
    destruct (Hstep st event C U u) as (Hbook & Hflag & Hbuf & Herr);
      [done|done|done|done|lia|lia|].
    destruct (IH (handler st event) C (u + 1))
      as (Hbook' & Hflag' & Hbuf' & Herr');
      [by rewrite Hflag|by rewrite Hbook|lia|done|].
    unfold onlyLogged.
    rewrite Hbook', Hflag', Hbuf', Herr', Hbook, Hflag, Hbuf, Herr.
    repeat split; lia.
Qed.

Lemma applyEvent_onlyLogged st event C U u :
  snapshotReceived st = true ->
  LocalOrderBook.lastUpdateId (localOrderBook st) = Some C ->
  ev_U event = JS.JNum U -> ev_u event = JS.JNum u ->
  C + 1 < U -> U <= u ->
  onlyLogged st (applyEvent st event) 1.
Proof.
  intros _ Hlast HU Hu Hgap Hrange.
  rewrite (applyEvent_gap st event C U u) by done.
  unfold onlyLogged.
  cbn [errors messageCount eventBuffer snapshotReceived localOrderBook].
  rewrite length_app. cbn [length]. repeat split; lia.
Qed.

Lemma onMessage_onlyLogged st event C U u :
  snapshotReceived st = true ->
  LocalOrderBook.lastUpdateId (localOrderBook st) = Some C ->
  ev_U event = JS.JNum U -> ev_u event = JS.JNum u ->
  C + 1 < U -> U <= u ->
  onlyLogged st (onMessage st event) 1.
Proof.
  intros Hlive Hlast HU Hu Hgap Hrange.
  rewrite (onMessage_live st event Hlive).
  rewrite (applyEvent_gap _ event C U u) by done.
  unfold onlyLogged.
  cbn [errors messageCount eventBuffer snapshotReceived localOrderBook].
  rewrite length_app. cbn [length]. repeat split; lia.
Qed.

Lemma discardReflected_beyond events last next :
  last + 1 < next ->
  contiguousFrom next events = true ->
  discardReflected (Some last) events = events.
Proof.
  intros Hgap Hrun. destruct events as [|event rest]; [done|].
  cbn [contiguousFrom] in Hrun. cbn [discardReflected].
  destruct (ev_U event) as [U|]; [|discriminate].
  destruct (ev_u event) as [u|]; [|discriminate].
  apply andb_prop in Hrun as [Hhead _].
  apply andb_prop in Hhead as [Hstart Hrange].
  apply Z.eqb_eq in Hstart. apply Z.leb_le in Hrange.
  cbn [JS.le]. by destruct (Z.leb_spec u last); [lia|].
Qed.

(** C1, what the code does instead.  Let the stream resume beyond the
    cursor and go on without any gap of its own.  Live, every one of its
    events is answered by one more error message and nothing else: the
    book is kept as it is, the session stays live, nothing is buffered and
    no snapshot is fetched.  Replayed from the buffer after a snapshot,
    the events are dropped in the same way: the book is that of the
    snapshot, and the session goes live on it with an empty buffer.  The
    gap is never repaired. *)
Theorem gap_is_logged_and_never_resynced
        (events : list DepthUpdateEvent) (st : t) (next : Z) :
  contiguousFrom next events = true ->
  (forall C,
      snapshotReceived st = true ->
      LocalOrderBook.lastUpdateId (localOrderBook st) = Some C ->
      C + 1 < next ->
      let st' := foldl onMessage st events in
      localOrderBook st' = localOrderBook st
      /\ snapshotReceived st' = true
      /\ eventBuffer st' = eventBuffer st
      /\ length (errors st') = (length (errors st) + length events)%nat)
  /\ (forall snapshot,
         eventBuffer st = events ->
         snap_lastUpdateId snapshot + 1 < next ->
         let st' := syncFromSnapshot st snapshot in
         localOrderBook st'
         = LocalOrderBook.setFromSnapshot (localOrderBook st) snapshot
         /\ snapshotReceived st' = true
         /\ eventBuffer st' = []
         /\ length (errors st') = (length (errors st) + length events)%nat).
Proof.
  intros Hrun. split.
  - intros C Hlive Hlast Hgap.
    destruct (foldl_gaps onMessage events onMessage_onlyLogged
                         st C next Hlive Hlast Hgap Hrun)
      as (Hbook & Hflag & Hbuf & Herr).
    cbn zeta. by rewrite Hflag.
  - intros snapshot Hbuffer Hgap. unfold syncFromSnapshot.
    cbn [eventBuffer LocalOrderBook.setFromSnapshot
         LocalOrderBook.lastUpdateId].
    rewrite Hbuffer.
    rewrite (discardReflected_beyond events _ next Hgap Hrun).
    match goal with
    | |- context [foldl applyEvent ?st1 events] =>
        destruct (foldl_gaps applyEvent events applyEvent_onlyLogged
                             st1 (snap_lastUpdateId snapshot) next
                             eq_refl eq_refl Hgap Hrun)
          as (Hbook & Hflag & _ & Herr)
    end.
    cbn [errors messageCount eventBuffer snapshotReceived localOrderBook].
    rewrite Hbook, Hflag, Herr. by repeat split.
Qed.

(** C3, the claim as stated fails: with a first buffered [U = 50] and a
    source that keeps answering [lastUpdateId = 40], no number of turns
    makes [fetchAndSyncSnapshot] return anything, a failure included. *)
Lemma stale_source_never_returns :
  ~ exists fuel result,
      fetchAndSyncSnapshot fuel Scenario.staleWorld Session.init
      = Some result.
Proof.
  intros (fuel & result & Hrun). unfold fetchAndSyncSnapshot in Hrun.
  rewrite fetchLoop_always_rejected in Hrun; [discriminate|].
  intros i. unfold rejected. cbn [received].
  assert (forall k n st, received Scenario.staleWorld st (S n) k = st) as ->.
  { induction k as [|k IH]; intros n st; cbn [received]; [done|].
    apply IH. }
  by destruct i.
Qed.

(** C3, amended.  The loop has no retry ceiling and reports no failure.
    It fetches again exactly as long as the fetched snapshot is stale: if
    [k] stale snapshots come before the first one that is not, the call
    returns after [k] re-fetches, initialized from that snapshot; if every
    snapshot is stale, it never returns. *)
Theorem fetchLoop_has_no_retry_ceiling (world : World) (st : t) :
  (forall k fuel,
      (forall i, (i < k)%nat -> rejected world st 0 i = true) ->
      rejected world st 0 k = false ->
      (k < fuel)%nat ->
      fetchAndSyncSnapshot fuel world st
      = Some (syncFromSnapshot (received world st 0 (S k)) (world k).2, S k))
  /\ ((forall i, rejected world st 0 i = true) ->
      forall fuel, fetchAndSyncSnapshot fuel world st = None).
Proof.
  split.
  - intros k fuel Hbefore Hfresh Hfuel. unfold fetchAndSyncSnapshot.
    by rewrite (fetchLoop_first_accepted k fuel world 0 st).
  - intros Hall fuel. unfold fetchAndSyncSnapshot.
    by rewrite fetchLoop_always_rejected.
Qed.


End SessionResults.

(** ** Numeric semantics: results *)

Section NumericResults.

Import JS LocalOrderBook.



End NumericResults.

(** ** The results on the scenarios *)

Section Witnesses.

Import LocalOrderBook.

(** The gap of the testable properties: cursor 100, event [105..110]. *)
Lemma applyEvent_gap_no_mutation_witness :
  JSInt.plusOne 100 = 100 + 1
  /\ (forall errors,
         (applyEvent Scenario.book100 Scenario.event105 errors).1
         = Scenario.book100)
  /\ (100 <= 110 ->
      forall collected : list string,
        (applyEvent Scenario.book100 Scenario.event105 (Some collected)).2
        = Some (collected
                  ++ ["Event U=" +:+ pretty 105
                        +:+ " > lastUpdateId+1=" +:+ pretty (100 + 1)
                        +:+ ", out of sequence. Restarting sync."]))
  /\ (applyEvent Scenario.book100 Scenario.event105 None).2 = None
  /\ (110 < 100 ->
      forall errors,
        (applyEvent Scenario.book100 Scenario.event105 errors).2 = errors).
Proof.
  apply (applyEvent_gap_no_mutation
           Scenario.book100 Scenario.event105 100 105 110);
    [reflexivity|reflexivity|reflexivity|reflexivity|lia|reflexivity].
Defined.

Lemma lastUpdateId_non_decreasing_witness :
  exists C',
    lastUpdateId (applyCalls Scenario.book100 Scenario.calls100) = Some C'
    /\ 100 <= C'
    /\ (C' = 100
        \/ exists call,
             In call Scenario.calls100 /\ ev_u call.1 = JS.JNum C').
Proof.
  apply (lastUpdateId_non_decreasing
           Scenario.calls100 Scenario.book100 100).
  reflexivity.
Defined.


Lemma applyEvent_uninitialized_witness :
  let book' := (applyEvent LocalOrderBook.new Scenario.event105 None).1 in
  (applyEvent LocalOrderBook.new Scenario.event105 None).2 = None
  /\ lastUpdateId book' = Some 110
  /\ sideUpdated ∅ [("10.0", "2")] (bids book')
  /\ sideUpdated ∅ [] (asks book').
Proof.
  apply (applyEvent_uninitialized
           LocalOrderBook.new Scenario.event105 None 110 [("10.0", "2")] []);
    reflexivity.
Defined.

Lemma malformed_event_partly_applied_witness :
  lastUpdateId
    (applyEvent Scenario.book100 Scenario.eventWithoutLast (Some [])).1
  = Some 100
  /\ sideUpdated (bids Scenario.book100) [("10.0", "5")]
       (bids (applyEvent Scenario.book100 Scenario.eventWithoutLast
                         (Some [])).1).
Proof.
  destruct (malformed_event_partly_applied
              Scenario.book100 Scenario.eventWithoutLast (Some []))
    as (_ & _ & Hlast & _).
  destruct (Hlast eq_refl) as (_ & Hcursor & Hbids & _).
  split; [exact Hcursor|]. by apply Hbids.
Defined.

Lemma no_zero_entry_after_clean_snapshot_witness :
  let book :=
    applyCalls (setFromSnapshot LocalOrderBook.new Scenario.snapshot100)
               [(Scenario.event95, None)] in
  noZeroEntry (bids book) /\ noZeroEntry (asks book).
Proof.
  apply (no_zero_entry_after_clean_snapshot
           LocalOrderBook.new Scenario.snapshot100
           [(Scenario.event95, None)]);
    by vm_compute.
Defined.


Import Session.

(** The gap of the testable properties, live: [105..110] and the event
    that follows it are both answered by a message only. *)
Lemma gap_is_logged_and_never_resynced_witness :
  let st' :=
    foldl onMessage Scenario.live100 [Scenario.event105; Scenario.event111] in
  localOrderBook st' = localOrderBook Scenario.live100
  /\ snapshotReceived st' = true
  /\ eventBuffer st' = eventBuffer Scenario.live100
  /\ length (errors st') = (length (errors Scenario.live100) + 2)%nat.
Proof.
  apply (proj1 (gap_is_logged_and_never_resynced
                  [Scenario.event105; Scenario.event111]
                  Scenario.live100 105 eq_refl) 100);
    [reflexivity|reflexivity|lia].
Defined.

(** One stale snapshot, then a fresh one: the call returns after one
    re-fetch. *)
Lemma fetchLoop_has_no_retry_ceiling_witness :
  fetchAndSyncSnapshot 2 Scenario.lateWorld Session.init
  = Some (syncFromSnapshot (received Scenario.lateWorld Session.init 0 2)
                           (Scenario.lateWorld 1%nat).2, 2%nat).
Proof.
  apply (proj1 (fetchLoop_has_no_retry_ceiling Scenario.lateWorld Session.init)
               1%nat 2%nat).
  - intros i Hi. assert (i = 0%nat) as -> by lia. reflexivity.
  - reflexivity.
  - lia.
Defined.


End Witnesses.

(** ** The order book: further results *)

Section OrderBookFurther.

Import LocalOrderBook.

Lemma levelAfter_twice old upd :
  levelAfter (levelAfter old upd) upd = levelAfter old upd.
Proof.
  destruct upd as [q|]; [|reflexivity].
  unfold levelAfter. by destruct (JS.parseFloatIsZero q).
Qed.

Lemma applyLevels_twice side field :
  applyLevels (applyLevels side field) field = applyLevels side field.
Proof.
  destruct field as [levels|]; [|reflexivity]. cbn [applyLevels].
  apply map_eq. intros price.
  rewrite (foldl_applyLevel_updated levels (foldl applyLevel side levels) price).
  rewrite (foldl_applyLevel_updated levels side price).
  apply levelAfter_twice.
Qed.

Lemma applyLevels_levelsOf side field :
  applyLevels side field = foldl applyLevel side (levelsOf field).
Proof. by destruct field. Qed.

(** With distinct prices, the quantity stated last for a price is the
    one stated for it. *)
Lemma lastUpdate_NoDup levels :
  NoDup levels.*1 ->
  forall price qty,
    lastUpdate price levels = Some qty <-> (price, qty) ∈ levels.
Proof.
  induction levels as [|[p q] rest IH]; intros Hnodup price qty.
  - cbn [lastUpdate]. split; [discriminate|]. by intros ?%elem_of_nil.
  - cbn [fmap list_fmap fst] in Hnodup.
    apply NoDup_cons in Hnodup as [Hfresh Hnodup].
    cbn [lastUpdate]. rewrite elem_of_cons.
    destruct (lastUpdate price rest) as [q'|] eqn:Hrest.
    + pose proof (proj1 (IH Hnodup price q') Hrest) as Hin.
      split.
      * intros [= <-]. by right.
      * intros [[= -> ->] | Hin'].
        -- exfalso. apply Hfresh.
           apply (list_elem_of_fmap_2 fst) in Hin. exact Hin.
        -- apply (IH Hnodup price qty) in Hin'. congruence.
    + destruct (decide (p = price)) as [->|Hne].
      * split.
        -- intros [= <-]. by left.
        -- intros [[= ->] | Hin]; [done|].
           apply (IH Hnodup price qty) in Hin. congruence.
      * split; [discriminate|].
        intros [[= ? ?] | Hin]; [congruence|].
        apply (IH Hnodup price qty) in Hin. congruence.
Qed.

Lemma lastUpdate_Permutation levels levels' price :
  NoDup levels.*1 ->
  levels ≡ₚ levels' ->
  lastUpdate price levels' = lastUpdate price levels.
Proof.
  intros Hnodup Hperm.
  assert (NoDup levels'.*1) as Hnodup' by (by rewrite <- Hperm).
  destruct (lastUpdate price levels) as [q|] eqn:Hlast.
  - apply (lastUpdate_NoDup levels' Hnodup'). rewrite <- Hperm.
    by apply (lastUpdate_NoDup levels Hnodup).
  - destruct (lastUpdate price levels') as [q'|] eqn:Hlast'; [|done].
    apply (lastUpdate_NoDup levels' Hnodup') in Hlast'.
    rewrite <- Hperm in Hlast'.
    apply (lastUpdate_NoDup levels Hnodup) in Hlast'. congruence.
Qed.

Lemma foldl_applyLevel_Permutation side levels levels' :
  NoDup levels.*1 ->
  levels ≡ₚ levels' ->
  foldl applyLevel side levels' = foldl applyLevel side levels.
Proof.
  intros Hnodup Hperm. apply map_eq. intros price.
  rewrite (foldl_applyLevel_updated levels' side price).
  rewrite (foldl_applyLevel_updated levels side price).
  by rewrite (lastUpdate_Permutation levels levels' price).
Qed.

(** X1.  After [setFromSnapshot] each side holds exactly the levels of
    the snapshot, whatever the book held before: a price has the quantity
    the snapshot lists for it (the last one, if it lists the price more
    than once) and a price the snapshot does not list has no entry; the
    cursor is the snapshot's [lastUpdateId]. *)
Theorem setFromSnapshot_replaces_the_book
        (book : t) (snapshot : OrderBookSnapshot) :
  (forall price,
      bids (setFromSnapshot book snapshot) !! price
      = lastUpdate price (snap_bids snapshot))
  /\ (forall price,
         asks (setFromSnapshot book snapshot) !! price
         = lastUpdate price (snap_asks snapshot))
  /\ lastUpdateId (setFromSnapshot book snapshot)
     = Some (snap_lastUpdateId snapshot).
Proof.
  cbn [setFromSnapshot bids asks lastUpdateId].
  split; [|split; [|reflexivity]]; intros price;
    rewrite setLevels_lookup, lookup_empty;
    by destruct (lastUpdate price _).
Qed.

(** X2.  Events older than the cursor are dropped, however many are
    delivered and whatever their [U] and their sides are: the book after
    the calls is the book before them, and no call touches its error
    collector. *)
Theorem stale_calls_change_nothing
        (book : t) (C : Z)
        (calls : list (DepthUpdateEvent * option (list string))) :
  lastUpdateId book = Some C ->
  forallb (staleCall C) calls = true ->
  applyCalls book calls = book
  /\ Forall (fun call => applyEvent book call.1 call.2 = (book, call.2)) calls.
Proof.
  intros Hlast Hstale.
  assert (forall call, staleCall C call = true ->
                       applyEvent book call.1 call.2 = (book, call.2))
    as Hone.
  { intros [event errors]. unfold staleCall, applyEvent. cbn [fst snd].
    destruct (ev_u event) as [u|]; [|discriminate].
    rewrite Hlast. by intros ->. }
  rewrite forallb_forall in Hstale. split.
  - unfold applyCalls.
    induction calls as [|[event errors] rest IH]; cbn [foldl]; [done|].
    pose proof (Hone (event, errors)) as Hhead. cbn [fst snd] in Hhead.
    rewrite Hhead by (apply Hstale; by left). cbn [fst].
    apply IH. intros call Hin. apply Hstale. by right.
  - apply Forall_forall. intros call Hin. apply Hone, Hstale.
    by apply list_elem_of_In.
Qed.

(** X3.  Applying an event that was just applied changes nothing: the
    second call passes both sequence tests again (the skip test is
    strict, so [u] equal to the cursor is not skipped), writes the same
    levels over themselves and leaves the cursor at [u]. *)
Theorem applying_an_event_twice
        (book : t) (event : DepthUpdateEvent)
        (errors errors' : option (list string)) (C U u : Z) :
  lastUpdateId book = Some C ->
  ev_U event = JS.JNum U ->
  ev_u event = JS.JNum u ->
  C <= u ->
  U <= C + 1 ->
  let once := (applyEvent book event errors).1 in
  lastUpdateId once = Some u
  /\ applyEvent once event errors' = (once, errors').
Proof.
  intros Hlast HU Hu Hle Hcontig.
  assert ((applyEvent book event errors).1 = applyUpdates book event) as ->.
  { unfold applyEvent. rewrite Hu, Hlast, HU. cbn [JS.gt].
    destruct (Z.ltb_spec u C); [lia|].
    by destruct (Z.ltb_spec (C + 1) U); [lia|]. }
  cbn zeta. split.
  - cbn [applyUpdates lastUpdateId]. by rewrite Hu.
  - unfold applyEvent.
    cbn [applyUpdates lastUpdateId]. rewrite Hu, HU. cbn [JS.gt].
    destruct (Z.ltb_spec u u); [lia|].
    destruct (Z.ltb_spec (u + 1) U); [lia|].
    f_equal. unfold applyUpdates. cbn [bids asks lastUpdateId].
    rewrite Hu. by rewrite !applyLevels_twice.
Qed.

(** X4.  When the prices listed on a side of an event are distinct, the
    order of its levels does not matter: two events that differ only in
    the order of their levels leave the same book and the same error
    collector. *)
Theorem level_order_within_an_event
        (book : t) (e e' : DepthUpdateEvent) (errors : option (list string))
        (bl bl' al al' : list Level) :
  ev_U e' = ev_U e ->
  ev_u e' = ev_u e ->
  ev_bids e = Some bl -> ev_bids e' = Some bl' ->
  ev_asks e = Some al -> ev_asks e' = Some al' ->
  NoDup bl.*1 -> NoDup al.*1 ->
  bl ≡ₚ bl' -> al ≡ₚ al' ->
  applyEvent book e' errors = applyEvent book e errors.
Proof.
  intros HU Hu Hb Hb' Ha Ha' Hnb Hna Hpb Hpa.
  assert (applyUpdates book e' = applyUpdates book e) as Hsame.
  { unfold applyUpdates. rewrite Hu, Hb, Hb', Ha, Ha'. cbn [applyLevels].
    by rewrite (foldl_applyLevel_Permutation _ bl bl'),
               (foldl_applyLevel_Permutation _ al al'). }
  unfold applyEvent. by rewrite Hu, HU, Hsame.
Qed.

End OrderBookFurther.

(** ** The session: further results *)

Section SessionFurther.

Import Session.

Lemma book_applyEvent_applied book event errors C U u :
  LocalOrderBook.lastUpdateId book = Some C ->
  ev_U event = JS.JNum U ->
  ev_u event = JS.JNum u ->
  U <= C + 1 ->
  C <= u ->
  LocalOrderBook.applyEvent book event errors
  = (LocalOrderBook.applyUpdates book event, errors).
Proof.
  intros Hlast HU Hu Hcontig Hle. unfold LocalOrderBook.applyEvent.
  rewrite Hu, Hlast, HU. cbn [JS.gt].
  destruct (Z.ltb_spec u C); [lia|].
  by destruct (Z.ltb_spec (C + 1) U); [lia|].
Qed.

Lemma onMessage_applied st event C U u :
  snapshotReceived st = true ->
  LocalOrderBook.lastUpdateId (localOrderBook st) = Some C ->
  ev_U event = JS.JNum U ->
  ev_u event = JS.JNum u ->
  U <= C + 1 ->
  C <= u ->
  onMessage st event
  = {| errors := errors st;
       messageCount := S (messageCount st);
       eventBuffer := eventBuffer st;
       snapshotReceived := true;
       localOrderBook :=
         LocalOrderBook.applyUpdates (localOrderBook st) event |}.
Proof.
  intros Hlive Hlast HU Hu Hcontig Hle.
  rewrite (onMessage_live st event Hlive). unfold applyEvent.
  cbn [errors messageCount eventBuffer snapshotReceived localOrderBook].
  rewrite (book_applyEvent_applied _ event _ C U u) by done.
  cbn [default]. by rewrite Hlive.
Qed.

Lemma lastEvent_numeric rest :
  forall e u next,
    ev_u e = JS.JNum u ->
    next = u + 1 ->
    contiguousFrom next rest = true ->
    exists last, ev_u (lastEvent e rest) = JS.JNum last /\ u <= last.
Proof.
  induction rest as [|e2 rest IH]; intros e u next Hu -> Hrun.
  - exists u. by split; [|lia].
  - cbn [contiguousFrom] in Hrun. cbn [lastEvent].
    destruct (ev_U e2) as [U2|]; [|discriminate].
    destruct (ev_u e2) as [u2|] eqn:Hu2; [|discriminate].
    apply andb_prop in Hrun as [Hhead Hrest].
    apply andb_prop in Hhead as [Hstart Hrange].
    apply Z.eqb_eq in Hstart. apply Z.leb_le in Hrange.
    destruct (IH e2 u2 (u2 + 1) Hu2 eq_refl Hrest) as (last & Hlast & Hle).
    exists last. split; [done|lia].
Qed.

Lemma applyEvent_appliedStep st event C U u :
  snapshotReceived st = true ->
  LocalOrderBook.lastUpdateId (localOrderBook st) = Some C ->
  ev_U event = JS.JNum U ->
  ev_u event = JS.JNum u ->
  U <= C + 1 ->
  C <= u ->
  appliedStep st (applyEvent st event) event.
Proof.
  intros _ Hlast HU Hu Hcontig Hle. unfold applyEvent.
  rewrite (book_applyEvent_applied _ event _ C U u) by done.
  by repeat split.
Qed.

Lemma onMessage_appliedStep st event C U u :
  snapshotReceived st = true ->
  LocalOrderBook.lastUpdateId (localOrderBook st) = Some C ->
  ev_U event = JS.JNum U ->
  ev_u event = JS.JNum u ->
  U <= C + 1 ->
  C <= u ->
  appliedStep st (onMessage st event) event.
Proof.
  intros Hlive Hlast HU Hu Hcontig Hle.
  rewrite (onMessage_applied st event C U u) by done.
  unfold appliedStep. cbn. by rewrite Hlive.
Qed.

(** A run without a gap, through any handler that applies each event the
    book accepts. *)
Lemma foldl_applied (handler : t -> DepthUpdateEvent -> t) rest :
  (forall st event C U u,
      snapshotReceived st = true ->
      LocalOrderBook.lastUpdateId (localOrderBook st) = Some C ->
      ev_U event = JS.JNum U -> ev_u event = JS.JNum u ->
      U <= C + 1 -> C <= u ->
      appliedStep st (handler st event) event) ->
  forall (st : t) (e : DepthUpdateEvent) (C U u : Z),
    snapshotReceived st = true ->
    LocalOrderBook.lastUpdateId (localOrderBook st) = Some C ->
    ev_U e = JS.JNum U ->
    ev_u e = JS.JNum u ->
    U <= C + 1 ->
    C <= u ->
    contiguousFrom (u + 1) rest = true ->
    errors (foldl handler st (e :: rest)) = errors st
    /\ snapshotReceived (foldl handler st (e :: rest)) = snapshotReceived st
    /\ localOrderBook (foldl handler st (e :: rest))
       = (LocalOrderBook.applyEvent (localOrderBook st) (mergeEvents e rest)
                                    None).1
    /\ exists last,
        ev_u (lastEvent e rest) = JS.JNum last
        /\ LocalOrderBook.lastUpdateId
             (localOrderBook (foldl handler st (e :: rest))) = Some last.
Proof.
  intros Hstep.
  induction rest as [|e2 rest IH];
    intros st e C U u Hlive Hlast HU Hu Hcontig Hle Hrun.
  - cbn [foldl lastEvent].
    destruct (Hstep st e C U u) as (Herr & Hflag & Hbook); [done..|].
    split; [done|]. split; [done|]. rewrite Hbook. split.
    + rewrite (book_applyEvent_applied _ (mergeEvents e []) None C U u)
        by done.
      cbn [fst]. unfold LocalOrderBook.applyUpdates, mergeEvents.
      cbn [ev_bids ev_asks ev_u lastEvent map concat
           LocalOrderBook.applyLevels]. rewrite !app_nil_r.
      by rewrite !applyLevels_levelsOf.
    + exists u. split; [done|].
      cbn [LocalOrderBook.applyUpdates LocalOrderBook.lastUpdateId].
      by rewrite Hu.
  - cbn [contiguousFrom] in Hrun.
    destruct (ev_U e2) as [U2|] eqn:HU2; [|discriminate].
    destruct (ev_u e2) as [u2|] eqn:Hu2; [|discriminate].
    apply andb_prop in Hrun as [Hhead Hrest].
    apply andb_prop in Hhead as [Hstart Hrange].
    apply Z.eqb_eq in Hstart. apply Z.leb_le in Hrange.
    change (foldl handler st (e :: e2 :: rest))
      with (foldl handler (handler st e) (e2 :: rest)).
    destruct (Hstep st e C U u) as (Herr1 & Hflag1 & Hbook1); [done..|].
    assert (LocalOrderBook.lastUpdateId (localOrderBook (handler st e))
            = Some u) as Hlast1.
    { rewrite Hbook1. cbn. by rewrite Hu. }
    destruct (IH (handler st e) e2 u U2 u2 ltac:(congruence) Hlast1 HU2 Hu2
                 ltac:(lia) ltac:(lia) Hrest)
      as (Herr & Hflag & Hbook & last & Hlastev & Hcursor).
    destruct (lastEvent_numeric rest e2 u2 (u2 + 1) Hu2 eq_refl Hrest)
      as (last' & Hlast' & Hle').
    assert (last' = last) as -> by congruence.
    split; [congruence|]. split; [congruence|].
    split; [|by exists last].
    rewrite Hbook, Hbook1.
    rewrite (book_applyEvent_applied _ (mergeEvents e2 rest) None u U2 last);
      [|by cbn; rewrite Hu|done|done|lia|lia].
    rewrite (book_applyEvent_applied _ (mergeEvents e (e2 :: rest)) None
                                     C U last) by (done || lia).
    cbn [fst]. unfold LocalOrderBook.applyUpdates, mergeEvents.
    cbn [ev_bids ev_asks ev_u lastEvent
         LocalOrderBook.bids LocalOrderBook.asks
         LocalOrderBook.lastUpdateId LocalOrderBook.applyLevels].
    rewrite Hlastev.
    cbn [map concat]. rewrite !foldl_app.
    by rewrite !applyLevels_levelsOf.
Qed.

Lemma discardReflected_app old :
  forall last e rest,
    Forall (fun ev => exists v, ev_u ev = JS.JNum v /\ v <= last) old ->
    JS.le (ev_u e) last = false ->
    discardReflected (Some last) (old ++ e :: rest) = e :: rest.
Proof.
  induction old as [|ev old IH]; intros last e rest Hold Hkeep.
  - cbn [app discardReflected]. by rewrite Hkeep.
  - apply Forall_cons in Hold as [(v & Hv & Hle) Hold].
    cbn [app discardReflected]. rewrite Hv. cbn [JS.le].
    destruct (Z.leb_spec v last); [|lia]. by apply IH.
Qed.

(** X5.  A live session that receives a run of events without a gap
    (the first one reaches the cursor, every next one starts right after
    the one before it) applies them all and reports nothing: the error
    list is unchanged, the cursor is the [u] of the last event, and the
    book is the one that a single event covering the whole run, with the
    levels of all events in order, leaves. *)
Theorem gapless_run_is_one_aggregate_event
        (rest : list DepthUpdateEvent) (st : t) (e : DepthUpdateEvent)
        (C U u : Z) :
  snapshotReceived st = true ->
  LocalOrderBook.lastUpdateId (localOrderBook st) = Some C ->
  ev_U e = JS.JNum U ->
  ev_u e = JS.JNum u ->
  U <= C + 1 ->
  C <= u ->
  contiguousFrom (u + 1) rest = true ->
  let st' := foldl onMessage st (e :: rest) in
  errors st' = errors st
  /\ localOrderBook st'
     = (LocalOrderBook.applyEvent (localOrderBook st) (mergeEvents e rest)
                                  None).1
  /\ exists last,
      ev_u (lastEvent e rest) = JS.JNum last
      /\ LocalOrderBook.lastUpdateId (localOrderBook st') = Some last.
Proof.
  intros Hlive Hlast HU Hu Hcontig Hle Hrun. cbn zeta.
  destruct (foldl_applied onMessage rest onMessage_appliedStep
                          st e C U u Hlive Hlast HU Hu Hcontig Hle Hrun)
    as (Herr & _ & Hbook & Hlastev).
  by repeat split.
Qed.

(** X15.  The replay after an accepted snapshot, in the case the
    synchronisation procedure aims at: the buffer holds events already
    reflected in the snapshot ([u <= lastUpdateId]), then an event that
    reaches the snapshot ([U <= lastUpdateId + 1], [u > lastUpdateId]),
    then events that follow one another without a gap.  The reflected
    events are dropped, all the others are applied and nothing is
    reported: the session goes live with an empty buffer, and its book is
    the snapshot updated by the levels of the events kept, in order. *)
Theorem replay_of_a_covering_buffer
        (st : t) (snapshot : OrderBookSnapshot)
        (old rest : list DepthUpdateEvent) (e : DepthUpdateEvent) (U u : Z) :
  eventBuffer st = old ++ e :: rest ->
  Forall (fun ev => exists v, ev_u ev = JS.JNum v
                              /\ v <= snap_lastUpdateId snapshot) old ->
  ev_U e = JS.JNum U ->
  ev_u e = JS.JNum u ->
  U <= snap_lastUpdateId snapshot + 1 ->
  snap_lastUpdateId snapshot < u ->
  contiguousFrom (u + 1) rest = true ->
  let st' := syncFromSnapshot st snapshot in
  errors st' = errors st
  /\ snapshotReceived st' = true
  /\ eventBuffer st' = []
  /\ localOrderBook st'
     = (LocalOrderBook.applyEvent
          (LocalOrderBook.setFromSnapshot (localOrderBook st) snapshot)
          (mergeEvents e rest) None).1
  /\ exists last,
      ev_u (lastEvent e rest) = JS.JNum last
      /\ LocalOrderBook.lastUpdateId (localOrderBook st') = Some last.
Proof.
  intros Hbuffer Hold HU Hu Hreach Hbeyond Hrun. unfold syncFromSnapshot.
  cbn [eventBuffer LocalOrderBook.setFromSnapshot
       LocalOrderBook.lastUpdateId].
  rewrite Hbuffer, (discardReflected_app old _ e rest Hold).
  2:{ rewrite Hu. cbn [JS.le]. by apply Z.leb_gt. }
  match goal with
  | |- context [foldl applyEvent ?st1 (e :: rest)] =>
      destruct (foldl_applied applyEvent rest applyEvent_appliedStep
                              st1 e (snap_lastUpdateId snapshot) U u)
        as (Herr & Hflag & Hbook & Hlastev);
        [reflexivity|reflexivity|done|done|done|lia|done|]
  end.
  cbn [errors messageCount eventBuffer snapshotReceived localOrderBook]
    in *.
  split; [exact Herr|]. split; [exact Hflag|]. split; [reflexivity|].
  split; [exact Hbook|exact Hlastev].
Qed.

Lemma foldl_onMessage_while_buffering
      (arrived : list DepthUpdateEvent) :
  forall st : t,
    snapshotReceived st = false ->
    foldl onMessage st arrived
    = {| errors := errors st;
         messageCount := messageCount st + length arrived;
         eventBuffer := eventBuffer st ++ arrived;
         snapshotReceived := false;
         localOrderBook := localOrderBook st |}.
Proof.
  induction arrived as [|json rest IH]; intros st Hbuf; cbn [foldl length].
  - destruct st. cbn in *. rewrite Hbuf, app_nil_r. f_equal. lia.
  - set (st1 := {| errors := errors st;
                   messageCount := S (messageCount st);
                   eventBuffer := eventBuffer st ++ [json];
                   snapshotReceived := false;
                   localOrderBook := localOrderBook st |}).
    assert (onMessage st json = st1) as ->.
    { unfold onMessage. cbn. by rewrite Hbuf. }
    rewrite (IH st1 eq_refl). cbn. rewrite <- app_assoc. f_equal. lia.
Qed.

(** X6.  Until the snapshot is loaded the message handler only buffers:
    after any number of messages the book and the error list are
    untouched, the buffer holds what it held followed by the messages in
    their order of arrival, and every message was counted. *)
Theorem messages_before_the_snapshot_are_buffered
        (arrived : list DepthUpdateEvent) (st : t) :
  snapshotReceived st = false ->
  let st' := foldl onMessage st arrived in
  eventBuffer st' = eventBuffer st ++ arrived
  /\ localOrderBook st' = localOrderBook st
  /\ errors st' = errors st
  /\ snapshotReceived st' = false
  /\ messageCount st' = (messageCount st + length arrived)%nat.
Proof.
  intros Hbuf. cbn zeta.
  rewrite (foldl_onMessage_while_buffering arrived st Hbuf).
  cbn [errors messageCount eventBuffer snapshotReceived localOrderBook].
  by repeat split.
Qed.

End SessionFurther.

(** ** The session over a whole run *)

Section SessionRun.

Import Session.

(** The session's [applyEvent] touches the book and the error list only,
    and the error list only by appending. *)
Lemma applyEvent_frame st event :
  snapshotReceived (applyEvent st event) = snapshotReceived st
  /\ eventBuffer (applyEvent st event) = eventBuffer st
  /\ messageCount (applyEvent st event) = messageCount st
  /\ exists more, errors (applyEvent st event) = errors st ++ more.
Proof.
  unfold applyEvent.
  destruct (applyEvent_cases (localOrderBook st) event (Some (errors st)))
    as [-> | [(last & _ & ->) | ->]]; cbn; repeat split.
  - exists []. by rewrite app_nil_r.
  - by eexists.
  - exists []. by rewrite app_nil_r.
Qed.

Lemma foldl_applyEvent_frame events :
  forall st,
    snapshotReceived (foldl applyEvent st events) = snapshotReceived st
    /\ eventBuffer (foldl applyEvent st events) = eventBuffer st
    /\ messageCount (foldl applyEvent st events) = messageCount st
    /\ exists more, errors (foldl applyEvent st events) = errors st ++ more.
Proof.
  induction events as [|event rest IH]; intros st; cbn [foldl].
  - repeat split. exists []. by rewrite app_nil_r.
  - destruct (IH (applyEvent st event)) as (-> & -> & -> & more2 & ->).
    destruct (applyEvent_frame st event) as (-> & -> & -> & more1 & ->).
    repeat split. exists (more1 ++ more2). by rewrite app_assoc.
Qed.

Lemma session_applyEvent_cursor st event C :
  LocalOrderBook.lastUpdateId (localOrderBook st) = Some C ->
  exists C',
    LocalOrderBook.lastUpdateId (localOrderBook (applyEvent st event))
    = Some C'
    /\ C <= C'.
Proof.
  intros Hlast.
  destruct (applyEvent_cursor (localOrderBook st) event (Some (errors st))
                              C Hlast) as [Hsame | (u & _ & Hle & Hmoved)];
    unfold applyEvent;
    destruct (LocalOrderBook.applyEvent _ _ _) as [book errs];
    cbn [fst localOrderBook] in *.
  - exists C. by split; [|lia].
  - by exists u.
Qed.

Lemma foldl_applyEvent_cursor events :
  forall st C,
    LocalOrderBook.lastUpdateId (localOrderBook st) = Some C ->
    exists C',
      LocalOrderBook.lastUpdateId (localOrderBook (foldl applyEvent st events))
      = Some C'
      /\ C <= C'.
Proof.
  induction events as [|event rest IH]; intros st C Hlast; cbn [foldl].
  - exists C. by split; [|lia].
  - destruct (session_applyEvent_cursor st event C Hlast) as (C1 & H1 & Hle1).
    destruct (IH _ C1 H1) as (C' & H' & Hle').
    exists C'. split; [done|lia].
Qed.

Lemma messagesOf_one d :
  length (messagesOf [d])
  = match d with Message _ => 1%nat | Failure _ => 0%nat end.
Proof. by destruct d. Qed.

Lemma messagesOf_cons d ds :
  length (messagesOf (d :: ds))
  = (length (messagesOf [d]) + length (messagesOf ds))%nat.
Proof. by destruct d. Qed.

Lemma deliver_frame st d :
  (exists more, errors (deliver st d) = errors st ++ more)
  /\ messageCount (deliver st d)
     = (messageCount st + length (messagesOf [d]))%nat
  /\ (snapshotReceived st = true ->
      snapshotReceived (deliver st d) = true
      /\ eventBuffer (deliver st d) = eventBuffer st).
Proof.
  rewrite messagesOf_one.
  destruct d as [json|message]; cbn [deliver].
  - unfold onMessage.
    cbn [snapshotReceived errors messageCount eventBuffer localOrderBook].
    destruct (snapshotReceived st) eqn:Hlive; cbn [negb].
    + match goal with
      | |- context [applyEvent ?st1 json] =>
          destruct (applyEvent_frame st1 json) as (-> & -> & -> & more & ->)
      end.
      cbn. repeat split; [by exists more|lia].
    + cbn. repeat split; try discriminate; [|lia].
      exists []. by rewrite app_nil_r.
  - unfold onError. cbn. repeat split; [by eexists|lia|done].
Qed.

(** X7.  Once the snapshot is loaded the session never buffers again:
    whatever is delivered afterwards, messages or socket errors,
    [snapshotReceived] stays true and the buffer keeps its content. *)
Theorem live_session_stays_live (deliveries : list Delivery) :
  forall st : t,
    snapshotReceived st = true ->
    snapshotReceived (foldl deliver st deliveries) = true
    /\ eventBuffer (foldl deliver st deliveries) = eventBuffer st.
Proof.
  induction deliveries as [|d rest IH]; intros st Hlive; cbn [foldl]; [done|].
  destruct (deliver_frame st d) as (_ & _ & Hstay).
  destruct (Hstay Hlive) as (Hlive' & Hbuf).
  destruct (IH _ Hlive') as (-> & ->). by split.
Qed.

(** X8.  Nothing ever removes an error: over any run of deliveries the
    error list is only extended, so a session that already fails the
    final assertion fails it for good; and every message delivered is
    counted once, whether it is buffered, applied, skipped or reported as
    a gap. *)
Theorem errors_only_grow (deliveries : list Delivery) :
  forall st : t,
    (exists more, errors (foldl deliver st deliveries) = errors st ++ more)
    /\ (testPasses st = false ->
        testPasses (foldl deliver st deliveries) = false)
    /\ messageCount (foldl deliver st deliveries)
       = (messageCount st + length (messagesOf deliveries))%nat.
Proof.
  assert (forall ds st,
             (exists more, errors (foldl deliver st ds) = errors st ++ more)
             /\ messageCount (foldl deliver st ds)
                = (messageCount st + length (messagesOf ds))%nat) as Hrun.
  { induction ds as [|d rest IH]; intros st; cbn [foldl].
    - split; [exists []; by rewrite app_nil_r|].
      change (messagesOf []) with (@nil DepthUpdateEvent). cbn [length]. lia.
    - destruct (IH (deliver st d)) as ((more2 & ->) & ->).
      destruct (deliver_frame st d) as ((more1 & ->) & -> & _).
      split; [exists (more1 ++ more2); by rewrite app_assoc|].
      rewrite (messagesOf_cons d rest). lia. }
  intros st. destruct (Hrun deliveries st) as ((more & Herr) & Hcount).
  split; [by exists more|]. split; [|done].
  unfold testPasses. rewrite Herr, length_app.
  intros Hfail%Nat.eqb_neq. apply Nat.eqb_neq. lia.
Qed.

(** X9.  The scan before the replay drops a prefix of the buffer and
    nothing else: every dropped event has a [u] that is at most the
    snapshot's [lastUpdateId], the events kept are the rest of the buffer
    in their order, and the first event kept, if there is one, has no [u]
    or a [u] beyond [lastUpdateId]. *)
Theorem discardReflected_drops_a_prefix
        (last : Z) (buffer : list DepthUpdateEvent) :
  exists dropped,
    buffer = dropped ++ discardReflected (Some last) buffer
    /\ Forall (fun e => exists u, ev_u e = JS.JNum u /\ u <= last) dropped
    /\ match discardReflected (Some last) buffer with
       | e :: _ => forall u, ev_u e = JS.JNum u -> last < u
       | [] => True
       end.
Proof.
  induction buffer as [|e rest IH]; cbn [discardReflected].
  - exists []. by repeat split.
  - destruct (JS.le (ev_u e) last) eqn:Hle.
    + destruct IH as (dropped & Hsplit & Hdropped & Hhead).
      exists (e :: dropped). split; [by rewrite Hsplit at 1|].
      split; [|done]. constructor; [|done].
      unfold JS.le in Hle. destruct (ev_u e) as [u|]; [|discriminate].
      exists u. split; [done|]. by apply Z.leb_le.
    + exists []. repeat split; [constructor|].
      intros u Hu. rewrite Hu in Hle. cbn [JS.le] in Hle.
      by apply Z.leb_gt.
Qed.

(** X10.  For strictly older events the scan only saves work: when no
    buffered event has [u] equal to the cursor, replaying the whole buffer
    leaves the same session as replaying what the scan keeps, because the
    book itself skips the events with [u] below the cursor. *)
Theorem discarding_older_events_is_redundant
        (buffer : list DepthUpdateEvent) :
  forall (st : t) (last : Z),
    LocalOrderBook.lastUpdateId (localOrderBook st) = Some last ->
    Forall (fun e => ev_u e <> JS.JNum last) buffer ->
    foldl applyEvent st (discardReflected (Some last) buffer)
    = foldl applyEvent st buffer.
Proof.
  induction buffer as [|e rest IH]; intros st last Hlast Hnone;
    cbn [discardReflected]; [done|].
  apply Forall_cons in Hnone as [Hne Hnone].
  destruct (JS.le (ev_u e) last) eqn:Hle; [|done].
  cbn [foldl].
  assert (applyEvent st e = st) as ->; [|by apply IH].
  unfold JS.le in Hle. destruct (ev_u e) as [u|] eqn:Hu; [|discriminate].
  apply Z.leb_le in Hle.
  assert (u < last) as Hlt by (assert (u <> last) by congruence; lia).
  unfold applyEvent, LocalOrderBook.applyEvent. rewrite Hu, Hlast.
  destruct (Z.ltb_spec u last); [|lia].
  by destruct st.
Qed.

End SessionRun.

(** ** Fetching the snapshot: further results *)

Section FetchFurther.

Import Session.

Lemma arrivals_step world n k :
  arrivals world n (S k) = (world n).1 ++ arrivals world (S n) k.
Proof. reflexivity. Qed.

Lemma fetchLoop_result fuel :
  forall world n st snapshot st1 m,
    fetchLoop fuel world n st = Some (snapshot, st1, m) ->
    (n < m)%nat
    /\ snapshot = (world (m - 1)%nat).2
    /\ st1 = foldl onMessage st (arrivals world n (m - n)).
Proof.
  induction fuel as [|fuel IH]; intros world n st snapshot st1 m;
    [discriminate|].
  rewrite fetchLoop_step.
  destruct (mustRefetch _ _).
  - intros Hrun. destruct (IH _ _ _ _ _ _ Hrun) as (Hlt & -> & ->).
    split; [lia|]. split; [done|].
    replace (m - n)%nat with (S (m - S n)) by lia.
    by rewrite arrivals_step, foldl_app.
  - intros [= <- <- <-]. split; [lia|].
    replace (S n - 1)%nat with n by lia.
    replace (S n - n)%nat with 1%nat by lia.
    split; [done|]. rewrite arrivals_step.
    change (arrivals world (S n) 0) with (@nil DepthUpdateEvent).
    by rewrite app_nil_r.
Qed.

(** X11.  No event is lost while the snapshot is fetched: when the loop
    leaves after the fetches [n] to [m - 1], with the snapshot of the
    last one, the buffer holds what it held before followed by all the
    events that arrived during those fetches, in their order of arrival,
    and the book has not been touched. *)
Theorem no_event_is_lost_while_fetching
        (fuel : nat) (world : World) (n : nat) (st : t)
        (snapshot : OrderBookSnapshot) (st1 : t) (m : nat) :
  snapshotReceived st = false ->
  fetchLoop fuel world n st = Some (snapshot, st1, m) ->
  (n < m)%nat
  /\ snapshot = (world (m - 1)%nat).2
  /\ eventBuffer st1 = eventBuffer st ++ arrivals world n (m - n)
  /\ localOrderBook st1 = localOrderBook st
  /\ snapshotReceived st1 = false.
Proof.
  intros Hbuf Hrun.
  destruct (fetchLoop_result fuel world n st snapshot st1 m Hrun)
    as (Hlt & -> & ->).
  destruct (foldl_onMessage_buffering (arrivals world n (m - n)) st Hbuf)
    as (-> & -> & ->).
  by repeat split.
Qed.

(** X12.  When [fetchAndSyncSnapshot] returns, after [m] fetches, the
    session is live with an empty buffer, its book is initialized with a
    cursor that is at least the [lastUpdateId] of the snapshot it
    accepted, every event that arrived meanwhile was counted, and the
    error list was only extended. *)
Theorem session_after_fetchAndSyncSnapshot
        (fuel : nat) (world : World) (st st' : t) (m : nat) :
  snapshotReceived st = false ->
  fetchAndSyncSnapshot fuel world st = Some (st', m) ->
  snapshotReceived st' = true
  /\ eventBuffer st' = []
  /\ messageCount st'
     = (messageCount st + length (arrivals world 0 m))%nat
  /\ (exists more, errors st' = errors st ++ more)
  /\ exists C',
      LocalOrderBook.lastUpdateId (localOrderBook st') = Some C'
      /\ snap_lastUpdateId (world (m - 1)%nat).2 <= C'.
Proof.
  intros Hbuf. unfold fetchAndSyncSnapshot.
  destruct (fetchLoop fuel world 0 st) as [[[snapshot st1] m1]|] eqn:Hrun;
    [|discriminate].
  intros [= <- <-].
  destruct (fetchLoop_result fuel world 0 st snapshot st1 m1 Hrun)
    as (Hlt & -> & ->).
  rewrite Nat.sub_0_r.
  rewrite (foldl_onMessage_while_buffering
             (arrivals world 0 m1) st Hbuf).
  unfold syncFromSnapshot.
  cbn [errors messageCount eventBuffer snapshotReceived localOrderBook].
  match goal with
  | |- context [foldl applyEvent ?st2 ?events] =>
      destruct (foldl_applyEvent_frame events st2)
        as (Hflag & _ & Hcount & more & Herr);
      destruct (foldl_applyEvent_cursor
                  events st2 (snap_lastUpdateId (world (m1 - 1)%nat).2)
                  eq_refl) as (C' & Hcursor & Hle)
  end.
  rewrite Hflag, Hcount, Herr.
  cbn [errors messageCount eventBuffer snapshotReceived localOrderBook].
  repeat split; [by exists more|by exists C'].
Qed.

(** X16.  The staleness test needs a first buffered event with a
    non-zero [U].  When the buffer is still empty after a fetch, or its
    first event has no [U] or [U = 0], the snapshot of that fetch is
    accepted at once, whatever its [lastUpdateId] is. *)
Theorem snapshot_is_accepted_without_a_testable_first_event
        (fuel : nat) (world : World) (n : nat) (st : t) :
  let st1 := foldl onMessage st (world n).1 in
  (eventBuffer st1 = []
   \/ exists first rest,
        eventBuffer st1 = first :: rest
        /\ (ev_U first = JS.JUndefined \/ ev_U first = JS.JNum 0)) ->
  fetchLoop (S fuel) world n st = Some ((world n).2, st1, S n).
Proof.
  cbn zeta. intros Hbuffer. rewrite fetchLoop_step.
  destruct Hbuffer as [-> | (first & rest & -> & [HU | HU])];
    cbn [mustRefetch]; [done| |]; by rewrite HU.
Qed.

End FetchFurther.

(** ** Top of the book *)

Section TopOfBookResults.

Variable number : Type.
Variable parseFloat : string -> number.
Variable minus : number -> number -> number.
Variable entries : gmap string string -> list (string * string).
Variable sort :
  (number * number -> number * number -> number) ->
  list (number * number) -> list (number * number).

(** A [Map] lists each of its entries once. *)
Hypothesis entries_listed : forall side, entries side ≡ₚ map_to_list side.

(** Sorting rearranges the array and nothing else. *)
Hypothesis sort_rearranges : forall compare l, sort compare l ≡ₚ l.

Lemma firstOrNull_sorted compare (side : gmap string string) :
  (firstOrNull number (sort compare (parsedEntries number parseFloat entries side))
   = None <-> side = ∅)
  /\ (forall x y,
         firstOrNull number
           (sort compare (parsedEntries number parseFloat entries side))
         = Some (x, y) ->
         exists price qty,
           side !! price = Some qty
           /\ x = parseFloat price /\ y = parseFloat qty).
Proof.
  pose proof (sort_rearranges
                compare (parsedEntries number parseFloat entries side))
    as Hperm.
  destruct (sort compare _) as [|[x0 y0] sorted]; cbn [firstOrNull].
  - split; [|discriminate]. split; [intros _|done].
    apply Permutation_nil_l in Hperm. unfold parsedEntries in Hperm.
    symmetry in Hperm. apply map_eq_nil in Hperm.
    apply map_to_list_empty_iff, Permutation_nil_r.
    by rewrite <- entries_listed, Hperm.
  - split.
    + split; [discriminate|]. intros ->.
      unfold parsedEntries in Hperm.
      assert (entries (∅ : gmap string string) = []) as Hnone.
      { apply Permutation_nil_r. rewrite entries_listed.
        by rewrite map_to_list_empty. }
      rewrite Hnone in Hperm.
      by apply Permutation_nil_r in Hperm.
    + intros x y [= <- <-].
      assert ((x0, y0) ∈ parsedEntries number parseFloat entries side)
        as Hin by (rewrite <- Hperm; by left).
      unfold parsedEntries in Hin.
      apply list_elem_of_fmap in Hin as ([price qty] & [= -> ->] & Hin).
      rewrite entries_listed in Hin. apply elem_of_map_to_list in Hin.
      by exists price, qty.
Qed.

(** X13.  [getTopBid] returns [null] exactly when the book has no bid,
    and otherwise the parsed price and quantity of one of its bid entries;
    [getTopAsk] does the same on the asks.  In particular the readers
    never fail and never invent a level. *)
Theorem top_of_book_reads_an_entry (book : LocalOrderBook.t) :
  (getTopBid number parseFloat minus entries sort book = None
   <-> LocalOrderBook.bids book = ∅)
  /\ (forall x y,
         getTopBid number parseFloat minus entries sort book = Some (x, y) ->
         exists price qty,
           LocalOrderBook.bids book !! price = Some qty
           /\ x = parseFloat price /\ y = parseFloat qty)
  /\ (getTopAsk number parseFloat minus entries sort book = None
      <-> LocalOrderBook.asks book = ∅)
  /\ (forall x y,
         getTopAsk number parseFloat minus entries sort book = Some (x, y) ->
         exists price qty,
           LocalOrderBook.asks book !! price = Some qty
           /\ x = parseFloat price /\ y = parseFloat qty).
Proof.
  unfold getTopBid, getTopAsk.
  destruct (firstOrNull_sorted (fun a b => minus b.1 a.1)
                               (LocalOrderBook.bids book)) as [Hb1 Hb2].
  destruct (firstOrNull_sorted (fun a b => minus a.1 b.1)
                               (LocalOrderBook.asks book)) as [Ha1 Ha2].
  split; [exact Hb1|]. split; [exact Hb2|]. split; [exact Ha1|exact Ha2].
Qed.

End TopOfBookResults.

(** ** The socket client *)

Section ClientResults.

Import WSClient.

Lemma step_balance client a :
  (closeCalls (step client a) + (if isOpen (step client a) then 1 else 0)
   <= closeCalls client + (if isOpen client then 1 else 0)
      + (if isOpened a then 1 else 0))%nat.
Proof.
  destruct a, client as [[] calls]; cbn; lia.
Qed.

(** X14.  The client calls [ws.close()] at most once for each [open]
    event it has seen, and never while the connection has not opened: a
    [close()] that comes before the socket opens, or after another
    [close()], does nothing. *)
Theorem close_is_called_once_per_open (actions : list action) :
  let client := foldl step new actions in
  (closeCalls client + (if isOpen client then 1 else 0)
   <= length (filter (fun a => isOpened a = true) actions))%nat
  /\ close (close client) = close client
  /\ (isOpen client = false -> close client = client).
Proof.
  assert (forall actions client,
             (closeCalls (foldl step client actions)
              + (if isOpen (foldl step client actions) then 1 else 0)
              <= closeCalls client + (if isOpen client then 1 else 0)
                 + length (filter (fun a => isOpened a = true) actions))%nat)
    as Hrun.
  { clear actions. induction actions as [|a rest IH]; intros client;
      cbn [foldl].
    - cbn. lia.
    - pose proof (IH (step client a)) as Hrest.
      pose proof (step_balance client a) as Hstep.
      rewrite filter_cons. destruct a; cbn [isOpened] in *.
      + rewrite decide_True by done. cbn [length]. lia.
      + rewrite decide_False by done. lia. }
  cbn zeta. split; [|split].
  - pose proof (Hrun actions new) as Hnew. cbn in Hnew. cbn. lia.
  - unfold close. destruct (isOpen (foldl step new actions)) eqn:Hopen;
      cbn [isOpen]; [reflexivity|by rewrite Hopen].
  - intros Hclosed. unfold close. by rewrite Hclosed.
Qed.

End ClientResults.

(** ** The further results on the scenarios *)

Section FurtherWitnesses.

Import LocalOrderBook.

Lemma stale_calls_change_nothing_witness :
  applyCalls Scenario.book100 Example.staleCalls = Scenario.book100
  /\ Forall (fun call =>
               applyEvent Scenario.book100 call.1 call.2
               = (Scenario.book100, call.2))
            Example.staleCalls.
Proof.
  apply (stale_calls_change_nothing Scenario.book100 100 Example.staleCalls);
    reflexivity.
Defined.

Lemma applying_an_event_twice_witness :
  let once := (applyEvent Scenario.book100 Scenario.event95 None).1 in
  lastUpdateId once = Some 101
  /\ applyEvent once Scenario.event95 (Some []) = (once, Some []).
Proof.
  apply (applying_an_event_twice
           Scenario.book100 Scenario.event95 None (Some []) 100 95 101);
    [reflexivity|reflexivity|reflexivity|lia|lia].
Defined.

Lemma level_order_within_an_event_witness :
  applyEvent Scenario.book100 Example.event101' None
  = applyEvent Scenario.book100 Example.event101 None.
Proof.
  apply (level_order_within_an_event
           Scenario.book100 Example.event101 Example.event101' None
           [("10.0", "2"); ("9.9", "1")] [("9.9", "1"); ("10.0", "2")]
           [] []);
    try reflexivity.
  - apply (bool_decide_unpack _). by vm_compute.
  - apply NoDup_nil_2.
  - apply perm_swap.
Defined.

Import Session.

Lemma gapless_run_is_one_aggregate_event_witness :
  let st' :=
    foldl onMessage Scenario.live100 [Example.event101; Example.event104] in
  errors st' = errors Scenario.live100
  /\ localOrderBook st'
     = (LocalOrderBook.applyEvent
          (localOrderBook Scenario.live100)
          (mergeEvents Example.event101 [Example.event104]) None).1
  /\ exists last,
      ev_u (lastEvent Example.event101 [Example.event104]) = JS.JNum last
      /\ LocalOrderBook.lastUpdateId (localOrderBook st') = Some last.
Proof.
  apply (gapless_run_is_one_aggregate_event
           [Example.event104] Scenario.live100 Example.event101 100 101 103);
    [reflexivity|reflexivity|reflexivity|reflexivity|lia|lia|reflexivity].
Defined.

Lemma messages_before_the_snapshot_are_buffered_witness :
  let st' :=
    foldl onMessage Session.init [Scenario.event50; Scenario.event95] in
  eventBuffer st' = [] ++ [Scenario.event50; Scenario.event95]
  /\ localOrderBook st' = LocalOrderBook.new
  /\ errors st' = []
  /\ snapshotReceived st' = false
  /\ messageCount st' = (0 + 2)%nat.
Proof.
  apply (messages_before_the_snapshot_are_buffered
           [Scenario.event50; Scenario.event95] Session.init).
  reflexivity.
Defined.

Lemma live_session_stays_live_witness :
  snapshotReceived (foldl deliver Scenario.live100 Example.deliveries) = true
  /\ eventBuffer (foldl deliver Scenario.live100 Example.deliveries)
     = eventBuffer Scenario.live100.
Proof.
  apply (live_session_stays_live Example.deliveries Scenario.live100).
  reflexivity.
Defined.

Lemma discarding_older_events_is_redundant_witness :
  foldl applyEvent Scenario.live100
        (discardReflected (Some 100) [Scenario.event50; Scenario.event105])
  = foldl applyEvent Scenario.live100 [Scenario.event50; Scenario.event105].
Proof.
  apply (discarding_older_events_is_redundant
           [Scenario.event50; Scenario.event105] Scenario.live100 100).
  - reflexivity.
  - repeat constructor; discriminate.
Defined.

Lemma no_event_is_lost_while_fetching_witness :
  (0 < 2)%nat
  /\ Scenario.snapshot60 = (Scenario.lateWorld (2 - 1)%nat).2
  /\ eventBuffer Scenario.buffered50
     = eventBuffer Session.init ++ arrivals Scenario.lateWorld 0 (2 - 0)
  /\ localOrderBook Scenario.buffered50 = localOrderBook Session.init
  /\ snapshotReceived Scenario.buffered50 = false.
Proof.
  apply (no_event_is_lost_while_fetching
           2 Scenario.lateWorld 0 Session.init
           Scenario.snapshot60 Scenario.buffered50 2);
    reflexivity.
Defined.

Lemma session_after_fetchAndSyncSnapshot_witness :
  let st' := syncFromSnapshot Scenario.buffered50 Scenario.snapshot60 in
  snapshotReceived st' = true
  /\ eventBuffer st' = []
  /\ messageCount st'
     = (messageCount Session.init
        + length (arrivals Scenario.lateWorld 0 2))%nat
  /\ (exists more, errors st' = errors Session.init ++ more)
  /\ exists C',
      LocalOrderBook.lastUpdateId (localOrderBook st') = Some C'
      /\ snap_lastUpdateId (Scenario.lateWorld (2 - 1)%nat).2 <= C'.
Proof.
  apply (session_after_fetchAndSyncSnapshot
           2 Scenario.lateWorld Session.init
           (syncFromSnapshot Scenario.buffered50 Scenario.snapshot60) 2);
    reflexivity.
Defined.

(** The end-to-end scenario: snapshot 100 and a buffered event [95..101]
    that removes the bid at 10.0. *)
Lemma replay_of_a_covering_buffer_witness :
  let st' := syncFromSnapshot Example.buffered95 Scenario.snapshot100 in
  errors st' = errors Example.buffered95
  /\ snapshotReceived st' = true
  /\ eventBuffer st' = []
  /\ localOrderBook st'
     = (LocalOrderBook.applyEvent
          (LocalOrderBook.setFromSnapshot
             (localOrderBook Example.buffered95) Scenario.snapshot100)
          (mergeEvents Scenario.event95 []) None).1
  /\ exists last,
      ev_u (lastEvent Scenario.event95 []) = JS.JNum last
      /\ LocalOrderBook.lastUpdateId (localOrderBook st') = Some last.
Proof.
  apply (replay_of_a_covering_buffer
           Example.buffered95 Scenario.snapshot100 [] []
           Scenario.event95 95 101);
    [reflexivity|constructor|reflexivity|reflexivity| | |reflexivity];
    by vm_compute.
Defined.

Lemma snapshot_is_accepted_without_a_testable_first_event_witness :
  fetchLoop 1 Example.quietWorld 0 Session.init
  = Some (Scenario.snapshot40, Session.init, 1%nat).
Proof.
  apply (snapshot_is_accepted_without_a_testable_first_event
           0 Example.quietWorld 0 Session.init).
  left. reflexivity.
Defined.

Lemma top_of_book_reads_an_entry_witness :
  getTopAsk Z Example.integerPart Z.sub map_to_list Example.sortBy
            Scenario.book100
  = None
  <-> LocalOrderBook.asks Scenario.book100 = ∅.
Proof.
  apply (top_of_book_reads_an_entry
           Z Example.integerPart Z.sub map_to_list Example.sortBy).
  - reflexivity.
  - intros compare l. unfold Example.sortBy.
    apply merge_sort_Permutation.
Defined.

End FurtherWitnesses.
